(** * godi: a name-keyed dependency container

    A verification model of the Go package [godi]: the container
    ([defaultContainer] and its methods) and the typed helpers of
    resolver.go.  The package's own functions ([NewContainer], [Lock],
    [Bind], [MustBind], [BindSingleton], [MustBindSingleton], [Resolver],
    [Resolve], [MustResolve]) are embedded as Rocq functions over an explicit
    program state.  Caller-supplied function bodies (the [BinderFunc]s handed
    to the container) are arbitrary Go code; they are represented by the
    trees of the effects such code can have on the package: reading and
    writing its own captured variables, calling the [ResolverFunc] it
    received, calling the methods of a captured [Container], panicking and
    recovering.

    Calls are followed from call to return, with a budget on how deep
    factories resolve through one another; a second semantics runs the same
    code step by step, so that goroutines can be interleaved. *)

From stdpp Require Import gmap strings list fin_maps.
From Stdlib Require Import ZArith.

Local Open Scope string_scope.

(** ** Go values *)

(** Dynamic values of the interface type [any].  [Nil] is the nil interface
    (no dynamic type); the other constructors box a value of a concrete type.
    [int] is the 64-bit signed integer, [uint8] the 8-bit unsigned one, both
    carried by [Z]; [Err] is a non-nil [error] made by [errors.New], of which
    only the message is kept. *)
Inductive any : Type :=
  | Nil
  | Int (z : Z)
  | Uint8 (z : Z)
  | Str (s : string)
  | Bool (b : bool)
  | Err (msg : string).

(** The Go interface type [error]: [None] is nil, [Some msg] the error whose
    [Error()] is [msg]. *)
Definition error : Type := option string.

(** The static types a caller can instantiate [T] with in [Resolve[T]]. *)
Inductive GoType : Type :=
  | TInt | TUint8 | TString | TBool | TError | TAny.

Definition denote (T : GoType) : Type :=
  match T with
  | TInt => Z
  | TUint8 => Z
  | TString => string
  | TBool => bool
  | TError => error
  | TAny => any
  end.

(** [var res T]: the zero value of [T]. *)
Definition zero (T : GoType) : denote T :=
  match T with
  | TInt => 0%Z
  | TUint8 => 0%Z
  | TString => ""
  | TBool => false
  | TError => None
  | TAny => Nil
  end.

(** Conversion of a [T] to [any] (what [return v] does when the result type
    is an interface). *)
Definition box (T : GoType) : denote T -> any :=
  match T with
  | TInt => Int
  | TUint8 => Uint8
  | TString => Str
  | TBool => Bool
  | TError => fun e => match e with Some m => Err m | None => Nil end
  | TAny => fun v => v
  end.

(** The dynamic type of an interface value; the nil interface has none. *)
Inductive DynType : Type :=
  | DInt | DUint8 | DString | DBool | DErrorString.

Definition dyntype (t : any) : option DynType :=
  match t with
  | Nil => None
  | Int _ => Some DInt
  | Uint8 _ => Some DUint8
  | Str _ => Some DString
  | Bool _ => Some DBool
  | Err _ => Some DErrorString
  end.

(** Whether a dynamic type satisfies the assertion [.(T)]: identity for a
    concrete [T], implementation of the interface for [error] and [any]. *)
Definition assertable (T : GoType) (d : DynType) : bool :=
  match T, d with
  | TInt, DInt => true
  | TUint8, DUint8 => true
  | TString, DString => true
  | TBool, DBool => true
  | TError, DErrorString => true
  | TAny, _ => true
  | _, _ => false
  end.

Definition matches (T : GoType) (t : any) : bool :=
  match dyntype t with
  | Some d => assertable T d
  | None => false
  end.

(** [v, ok := t.(T)]: the two-result type assertion.  On failure [v] is the
    zero value of [T]. *)
Definition typeAssert (T : GoType) (t : any) : denote T * bool :=
  match T return denote T * bool with
  | TInt => match t with Int z => (z, true) | _ => (0%Z, false) end
  | TUint8 => match t with Uint8 z => (z, true) | _ => (0%Z, false) end
  | TString => match t with Str s => (s, true) | _ => ("", false) end
  | TBool => match t with Bool b => (b, true) | _ => (false, false) end
  | TError => match t with Err m => (Some m, true) | _ => (None, false) end
  | TAny => match t with Nil => (Nil, false) | _ => (t, true) end
  end.

(** ** Error values of the package *)

(** [errors.New("service container locked. no more services can be bound")] *)
Definition errLocked : string :=
  "service container locked. no more services can be bound".

(** [fmt.Sprintf("service with name %s already bound", name)] *)
Definition errAlreadyBound (name : string) : string :=
  "service with name " ++ name ++ " already bound".

(** [fmt.Sprintf("%s service not found in container", name)] *)
Definition errNotFound (name : string) : string :=
  name ++ " service not found in container".

(** [fmt.Sprintf("Unable to convert %s to the requested type", name)] *)
Definition errTypeMismatch (name : string) : string :=
  "Unable to convert " ++ name ++ " to the requested type".

(** ** Caller code *)

(** The body of a caller-supplied [func(resolver ResolverFunc) any], as the
    tree of what it does to the outside:
    - [Ret v]: [return v];
    - [Panic p]: [panic(p)] (calling a nil [BinderFunc] is such a body);
    - [Load x k] / [Store x v k]: read / write a variable the closure
      captured ([var num = 10; ... num *= 10]);
    - [CallResolver name k]: [v, err := resolver(name)] on the resolver it
      received;
    - [CallBind single name b k]: [err := container.Bind(name, b)] or
      [container.BindSingleton(name, b)] on a captured container;
    - [CallLock k]: [container.Lock()];
    - [Recover body k]: run [body] under a deferred [recover()]; [k] gets
      [inl v] when [body] returned [v] and [inr p] when it panicked with
      [p]. *)
Inductive Code : Type :=
  | Ret (v : any)
  | Panic (p : any)
  | Load (x : nat) (k : any -> Code)
  | Store (x : nat) (v : any) (k : Code)
  | CallResolver (name : string) (k : any -> error -> Code)
  | CallBind (single : bool) (name : string) (b : Code) (k : error -> Code)
  | CallLock (k : Code)
  | Recover (body : Code) (k : any + any -> Code).

(** ** Program state *)

(** [sync.Once]: [OnceFresh] before the first [Do], [OnceRunning] while the
    function passed to the first [Do] runs (the mutex is held), [OnceDone]
    once [done] is set. *)
Inductive Once : Type := OnceFresh | OnceRunning | OnceDone.

#[global] Instance Once_eq_dec : EqDecision Once.
Proof. solve_decision. Defined.

(** The variables of one [BindSingleton] call that its closure [bind]
    captures: [var lazyBind sync.Once] and [var result any]. *)
Record SingletonEnv : Type := mkEnv {
  lazyBind : Once;
  result : any
}.

(** A [BinderFunc] value stored in [services]: either the caller's function,
    or the closure [bind] built by [BindSingleton], which captures the
    variables at [env] and the caller's [binder]. *)
Inductive BinderFunc : Type :=
  | UserFn (body : Code)
  | OnceFn (env : nat) (binder : Code).

(** [defaultContainer] together with the heap it is used with.  [locked] and
    [services] are the struct's fields; [envs] holds the variables allocated
    by the [BindSingleton] calls so far; [vars] the callers' captured
    variables (an unset variable reads as nil). *)
Record State : Type := mkState {
  locked : bool;
  services : gmap string BinderFunc;
  envs : list SingletonEnv;
  vars : gmap nat any
}.

(** [NewContainer()] *)
Definition NewContainer : State :=
  {| locked := false; services := ∅; envs := []; vars := ∅ |}.

(** How a call ends: it returns [a] in state [st]; it panics with value [p],
    leaving state [st] behind for whoever recovers; it blocks forever on the
    mutex of a [sync.Once] it is itself running; or the model's recursion
    budget is used up. *)
Inductive Res (A : Type) : Type :=
  | Ok (a : A) (st : State)
  | Panicked (p : any) (st : State)
  | Deadlock
  | OutOfFuel.
Arguments Ok {A} a st.
Arguments Panicked {A} p st.
Arguments Deadlock {A}.
Arguments OutOfFuel {A}.

Definition M (A : Type) : Type := State -> Res A.

(** The sequencing of calls: state is threaded through, and a panic, a
    deadlock or an exhausted budget ends the sequence.  stdpp's notations
    [x ← m; f] and ['(a, b) ← m; f] are used for it. *)
#[global] Instance M_ret : MRet M := fun A a st => Ok a st.

#[global] Instance M_bind : MBind M := fun A B f m st =>
  match m st with
  | Ok a st' => f a st'
  | Panicked p st' => Panicked p st'
  | Deadlock => Deadlock
  | OutOfFuel => OutOfFuel
  end.

(** [panic(p)] *)
Definition panic {A} (p : any) : M A := fun st => Panicked p st.

(** [type ResolverFunc = func(string) (any, error)] *)
Definition ResolverFunc : Type := string -> M (any * error).

(** ** The container *)

Definition set_locked (b : bool) (st : State) : State :=
  {| locked := b; services := services st; envs := envs st; vars := vars st |}.

Definition set_services (s : gmap string BinderFunc) (st : State) : State :=
  {| locked := locked st; services := s; envs := envs st; vars := vars st |}.

Definition set_envs (e : list SingletonEnv) (st : State) : State :=
  {| locked := locked st; services := services st; envs := e; vars := vars st |}.

Definition set_vars (v : gmap nat any) (st : State) : State :=
  {| locked := locked st; services := services st; envs := envs st; vars := v |}.

(** [func (d *defaultContainer) Lock()] *)
Definition Lock : M unit :=
  fun st => Ok tt (set_locked true st).

(** [func (d *defaultContainer) Bind(name string, binder BinderFunc) error] *)
Definition Bind (name : string) (binder : BinderFunc) : M error :=
  fun st =>
    if locked st then Ok (Some errLocked) st
    else match services st !! name with
         | Some _ => Ok (Some (errAlreadyBound name)) st
         | None => Ok None (set_services (<[name := binder]> (services st)) st)
         end.

(** [func (d *defaultContainer) MustBind(name string, binder BinderFunc)] *)
Definition MustBind (name : string) (binder : BinderFunc) : M unit :=
  err ← Bind name binder;
  match err with
  | Some msg => panic (Str msg)
  | None => mret tt
  end.

(** [var lazyBind sync.Once; var result any]: the two variables of a
    [BindSingleton] call, zero-valued, at a fresh place of the heap. *)
Definition newSingletonEnv : M nat :=
  fun st => Ok (length (envs st))
               (set_envs (envs st ++ [mkEnv OnceFresh Nil]) st).

(** The variables at [o]; a place that was never allocated (no closure made
    by [BindSingleton] refers to one) reads as the zero values. *)
Definition env_at (o : nat) (st : State) : SingletonEnv :=
  default (mkEnv OnceFresh Nil) (envs st !! o).

Definition set_lazyBind (o : nat) (s : Once) (st : State) : State :=
  set_envs (<[o := mkEnv s (result (env_at o st))]> (envs st)) st.

Definition store_result (o : nat) (v : any) (st : State) : State :=
  set_envs (<[o := mkEnv (lazyBind (env_at o st)) v]> (envs st)) st.

(** [result = v] *)
Definition set_result (o : nat) (v : any) : M unit :=
  fun st => Ok tt (store_result o v st).

(** [return result] *)
Definition get_result (o : nat) : M any :=
  fun st => Ok (result (env_at o st)) st.

(** [lazyBind.Do(f)] of the standard library's [sync.Once], on the Once at
    [o]: [f] runs only if no [Do] ran before; [done] is set by a deferred
    store, so also when [f] panics; a [Do] from inside [f] on the same Once
    waits for the mutex [f]'s caller holds, forever. *)
Definition onceDo (o : nat) (f : M unit) : M unit :=
  fun st =>
    match lazyBind (env_at o st) with
    | OnceDone => Ok tt st
    | OnceRunning => Deadlock
    | OnceFresh =>
        match f (set_lazyBind o OnceRunning st) with
        | Ok _ st' => Ok tt (set_lazyBind o OnceDone st')
        | Panicked p st' => Panicked p (set_lazyBind o OnceDone st')
        | Deadlock => Deadlock
        | OutOfFuel => OutOfFuel
        end
    end.

(** [func (d *defaultContainer) BindSingleton(name string, binder BinderFunc) error];
    the closure [bind] it builds is [OnceFn o binder], run by [invoke]. *)
Definition BindSingleton (name : string) (binder : Code) : M error :=
  o ← newSingletonEnv;
  Bind name (OnceFn o binder).

(** [func (d *defaultContainer) MustBindSingleton(name string, binder BinderFunc)] *)
Definition MustBindSingleton (name : string) (binder : Code) : M unit :=
  err ← BindSingleton name binder;
  match err with
  | Some msg => panic (Str msg)
  | None => mret tt
  end.

(** Running a caller's function body, with [resolver] the [ResolverFunc] it
    was called with. *)
Fixpoint exec (resolver : ResolverFunc) (c : Code) : M any :=
  match c with
  | Ret v => mret v
  | Panic p => panic p
  | Load x k => fun st => exec resolver (k (default Nil (vars st !! x))) st
  | Store x v k => fun st => exec resolver k (set_vars (<[x := v]> (vars st)) st)
  | CallResolver name k =>
      '(v, err) ← resolver name;
      exec resolver (k v err)
  | CallBind single name b k =>
      err ← (if single then BindSingleton name b else Bind name (UserFn b));
      exec resolver (k err)
  | CallLock k =>
      _ ← Lock;
      exec resolver k
  | Recover body k =>
      fun st =>
        match exec resolver body st with
        | Ok v st' => exec resolver (k (inl v)) st'
        | Panicked p st' => exec resolver (k (inr p)) st'
        | Deadlock => Deadlock
        | OutOfFuel => OutOfFuel
        end
  end.

(** Calling a stored [BinderFunc] with [resolver].  For the closure of
    [BindSingleton] this is
    [lazyBind.Do(func() { result = binder(resolver) }); return result]. *)
Definition invoke (b : BinderFunc) (resolver : ResolverFunc) : M any :=
  match b with
  | UserFn body => exec resolver body
  | OnceFn o binder =>
      _ ← onceDo o (v ← exec resolver binder; set_result o v);
      get_result o
  end.

(** [func (d *defaultContainer) Resolver() ResolverFunc]: the closure over
    [d].  Each call of a bound name hands the factory [d.Resolver()], a
    resolver made anew; [fuel] bounds how deep factories may resolve
    through one another. *)
Fixpoint Resolver (fuel : nat) : ResolverFunc :=
  fun name st =>
    match services st !! name with
    | None => Ok (Nil, Some (errNotFound name)) st
    | Some b =>
        match fuel with
        | O => OutOfFuel
        | S n => (v ← invoke b (Resolver n); mret (v, None)) st
        end
    end.

(** ** Typed retrieval (resolver.go) *)

(** [func Resolve[T any](name string, resolver ResolverFunc) (T, error)] *)
Definition Resolve (T : GoType) (name : string) (resolver : ResolverFunc)
  : M (denote T * error) :=
  '(t, err) ← resolver name;
  match err with
  | Some e => mret (zero T, Some e)
  | None =>
      let '(v, ok) := typeAssert T t in
      if negb ok then mret (v, Some (errTypeMismatch name))
      else mret (v, None)
  end.

(** [func MustResolve[T any](name string, resolver ResolverFunc) T] *)
Definition MustResolve (T : GoType) (name : string) (resolver : ResolverFunc)
  : M (denote T) :=
  '(value, err) ← Resolve T name resolver;
  match err with
  | Some e => panic (Err e)
  | None => mret value
  end.

(** ** Sample programs *)

(** Wrap-around of the 64-bit [int]. *)
Definition wrap64 (z : Z) : Z :=
  ((z + 2 ^ 63) mod 2 ^ 64 - 2 ^ 63)%Z.

Definition as_int (v : any) : Z :=
  match v with Int z => z | _ => 0%Z end.

(** [func(resolver ResolverFunc) any { num++; return num }] over the captured
    variable [x]. *)
Definition counter (x : nat) : Code :=
  Load x (fun v =>
    let n := Int (wrap64 (as_int v + 1)) in
    Store x n (Ret n)).

(** [func(resolver ResolverFunc) any { v, _ := resolver(name); return v }] *)
Definition forward (name : string) : Code :=
  CallResolver name (fun v _ => Ret v).

Definition run {A} (m : M A) (st : State) : State :=
  match m st with
  | Ok _ st' => st'
  | Panicked _ st' => st'
  | _ => st
  end.

Definition st_counter : State := run (Bind "counter" (UserFn (counter 0))) NewContainer.
Definition st_once : State := run (BindSingleton "counter" (counter 0)) NewContainer.

(** The state the counter's first run leaves inside the singleton's [Do]. *)
Definition st_counted : State :=
  run (exec (Resolver 0) (counter 0)) (set_lazyBind 0 OnceRunning st_once).

Definition value_of {A} (r : Res A) : option A :=
  match r with Ok a _ => Some a | _ => None end.

(** A container whose factory ["boom"] panics. *)
Definition st_boom : State :=
  run (Bind "boom" (UserFn (Panic (Str "boom")))) NewContainer.

(** The same factory, bound as a singleton. *)
Definition st_boom_once : State :=
  run (BindSingleton "boom" (Store 0 (Int 1) (Panic (Str "boom")))) NewContainer.

(** The container of [TestResolve]: ["foo"] gives 1 and ["bar"] gives 2. *)
Definition st_foobar : State :=
  run (_ ← MustBind "foo" (UserFn (Ret (Int 1)));
       MustBind "bar" (UserFn (Ret (Int 2)))) NewContainer.

(** ["b"] is built from its sibling ["counter"]. *)
Definition st_sibling : State :=
  run (Bind "b" (UserFn (forward "counter"))) st_counter.

(** A singleton whose factory resolves its own name, and an instanced
    binding that does the same. *)
Definition st_self_once : State :=
  run (BindSingleton "self" (forward "self")) NewContainer.
Definition st_self : State :=
  run (Bind "self" (UserFn (forward "self"))) NewContainer.

(** ** The package's interface, call by call *)

(** One call of a client on the package: a method of [Container], a call of
    the [ResolverFunc] obtained from [Resolver()], or one of the helpers of
    resolver.go applied to it. *)
Inductive Call : Type :=
  | DoLock
  | DoBind (name : string) (binder : Code)
  | DoMustBind (name : string) (binder : Code)
  | DoBindSingleton (name : string) (binder : Code)
  | DoMustBindSingleton (name : string) (binder : Code)
  | DoResolver (name : string)
  | DoResolve (T : GoType) (name : string)
  | DoMustResolve (T : GoType) (name : string).

Definition discard {A} (m : M A) : M unit := _ ← m; mret tt.

Definition perform (fuel : nat) (c : Call) : M unit :=
  match c with
  | DoLock => Lock
  | DoBind name binder => discard (Bind name (UserFn binder))
  | DoMustBind name binder => MustBind name (UserFn binder)
  | DoBindSingleton name binder => discard (BindSingleton name binder)
  | DoMustBindSingleton name binder => MustBindSingleton name binder
  | DoResolver name => discard (Resolver fuel name)
  | DoResolve T name => discard (Resolve T name (Resolver fuel))
  | DoMustResolve T name => discard (MustResolve T name (Resolver fuel))
  end.

(** A client that makes the calls one after the other. *)
Fixpoint perform_all (fuel : nat) (cs : list Call) : M unit :=
  match cs with
  | [] => mret tt
  | c :: cs' => _ ← perform fuel c; perform_all fuel cs'
  end.

(** [k] resolutions of [name] in a row, by a client that collects the
    values. *)
Fixpoint resolve_times (fuel : nat) (k : nat) (name : string) : M (list any) :=
  match k with
  | O => mret []
  | S k' =>
      '(v, _) ← Resolver fuel name;
      vs ← resolve_times fuel k' name;
      mret (v :: vs)
  end.

(** ** Goroutines *)

(** The sections above follow one goroutine from call to return.  Here the
    same code is run step by step, so that the steps of several goroutines
    can be interleaved.  A goroutine is the code it still has to run and the
    calls it is inside of:
    - [FCall k]: inside [d.services[name](d.Resolver())], called by code
      that goes on with [k];
    - [FOnce o]: inside [lazyBind.Do(...)] of the closure whose variables
      are at [o], as the goroutine that runs the factory;
    - [FRecover k]: inside the body of a [Recover]. *)
Inductive Frame : Type :=
  | FCall (k : any -> error -> Code)
  | FOnce (o : nat)
  | FRecover (k : any + any -> Code).

Definition Thread : Type := (Code * list Frame)%type.

(** One step of a goroutine, [None] when it has none: it is finished
    ([Ret] or [Panic] with no call left), or it waits in [lazyBind.Do] for
    the goroutine that runs the factory. *)
Definition step (st : State) (t : Thread) : option (Thread * State) :=
  let '(c, fs) := t in
  match c with
  | Ret v =>
      match fs with
      | [] => None
      | FCall k :: fs' => Some ((k v None, fs'), st)
      | FOnce o :: fs' =>
          let st' := set_lazyBind o OnceDone (store_result o v st) in
          Some ((Ret (result (env_at o st')), fs'), st')
      | FRecover k :: fs' => Some ((k (inl v), fs'), st)
      end
  | Panic p =>
      match fs with
      | [] => None
      | FCall _ :: fs' => Some ((Panic p, fs'), st)
      | FOnce o :: fs' => Some ((Panic p, fs'), set_lazyBind o OnceDone st)
      | FRecover k :: fs' => Some ((k (inr p), fs'), st)
      end
  | Load x k => Some ((k (default Nil (vars st !! x)), fs), st)
  | Store x v k => Some ((k, fs), set_vars (<[x := v]> (vars st)) st)
  | CallResolver name k =>
      match services st !! name with
      | None => Some ((k Nil (Some (errNotFound name)), fs), st)
      | Some (UserFn body) => Some ((body, FCall k :: fs), st)
      | Some (OnceFn o binder) =>
          match lazyBind (env_at o st) with
          | OnceDone => Some ((k (result (env_at o st)) None, fs), st)
          | OnceRunning => None
          | OnceFresh =>
              Some ((binder, FOnce o :: FCall k :: fs),
                    set_lazyBind o OnceRunning st)
          end
      end
  | CallBind single name b k =>
      match (if single then BindSingleton name b else Bind name (UserFn b)) st with
      | Ok err st' => Some ((k err, fs), st')
      | _ => None
      end
  | CallLock k => Some ((k, fs), set_locked true st)
  | Recover body k => Some ((body, FRecover k :: fs), st)
  end.

(** Whether the next step of [t] is the one that starts the factory of the
    singleton whose variables are at [o]. *)
Definition starts (o : nat) (st : State) (t : Thread) : bool :=
  match fst t with
  | CallResolver name _ =>
      match services st !! name with
      | Some (OnceFn o' _) =>
          match lazyBind (env_at o' st) with
          | OnceFresh => bool_decide (o' = o)
          | _ => false
          end
      | _ => false
      end
  | _ => false
  end.

(** Any number of steps of one goroutine. *)
Inductive steps : Thread * State -> Thread * State -> Prop :=
  | steps_refl ts : steps ts ts
  | steps_step t st t' st' ts'' :
      step st t = Some (t', st') -> steps (t', st') ts'' -> steps (t, st) ts''.

(** The goroutines of a program, and a schedule: the goroutine to step
    next, time after time.  A goroutine that has no step when its turn comes
    is passed over. *)
Abbreviation Pool := (list Thread).

Definition pool_step (i : nat) (P : Pool) (st : State) : option (Pool * State) :=
  match P !! i with
  | Some t =>
      match step st t with
      | Some (t', st') => Some (<[i := t']> P, st')
      | None => None
      end
  | None => None
  end.

Fixpoint run_schedule (sched : list nat) (P : Pool) (st : State) : Pool * State :=
  match sched with
  | [] => (P, st)
  | i :: sched' =>
      match pool_step i P st with
      | Some (P', st') => run_schedule sched' P' st'
      | None => run_schedule sched' P st
      end
  end.

(** How often, under a schedule, the factory of the singleton at [o] is
    started. *)
Fixpoint count_starts (o : nat) (sched : list nat) (P : Pool) (st : State) : nat :=
  match sched with
  | [] => 0
  | i :: sched' =>
      match pool_step i P st with
      | Some (P', st') =>
          (if starts o st (default (Ret Nil, []) (P !! i)) then 1 else 0)
          + count_starts o sched' P' st'
      | None => count_starts o sched' P st
      end
  end.

(** The number of calls of [lazyBind.Do] of the closure at [o] that a
    goroutine, or a program, is inside of. *)
Definition is_once (o : nat) (f : Frame) : bool :=
  match f with
  | FOnce o' => bool_decide (o' = o)
  | _ => false
  end.

Definition frames_of (o : nat) (t : Thread) : nat :=
  length (filter (fun f => is_once o f = true) (snd t)).

Definition frames_in (o : nat) (P : Pool) : nat :=
  sum_list (frames_of o <$> P).

(** A client goroutine that resolves [name] and returns what it got. *)
Definition client (name : string) : Thread := (forward name, []).

(** Three goroutines that resolve ["counter"], stepped in turns. *)
Definition three_clients : Pool :=
  [client "counter"; client "counter"; client "counter"].

Definition in_turns : list nat := concat (replicate 8 [0; 1; 2]).

(** [reaches ret c fs st r]: the goroutine with code [c] inside the calls
    [fs] gets, step by step, where the call-to-return semantics says it ends:
    at [ret a] when that returns [a], at the panic when that panics. *)
Definition reaches {A} (ret : A -> Code) (c : Code) (fs : list Frame)
    (st : State) (r : Res A) : Prop :=
  match r with
  | Ok a st' => steps ((c, fs), st) ((ret a, fs), st')
  | Panicked p st' => steps ((c, fs), st) ((Panic p, fs), st')
  | Deadlock => True
  | OutOfFuel => True
  end.

(** A resolver whose calls the steps of a goroutine follow. *)
Definition tracked (R : ResolverFunc) : Prop :=
  forall name k fs st,
    reaches (fun ve => k (fst ve) (snd ve)) (CallResolver name k) fs st (R name st).

(** What holds of the Once at [o] in every state of a program: its mutex is
    held exactly while one goroutine is inside its [Do]. *)
Definition once_inv (o : nat) (P : Pool) (st : State) : Prop :=
  o < length (envs st) /\
  frames_in o P =
    match lazyBind (env_at o st) with OnceRunning => 1 | _ => 0 end.

(** ** What a call may change *)

(** [extends st st']: what is known of [st'] when a call that started in
    [st] has ended.  The lock is never released; a locked table is the same
    table; a binding is never removed or replaced; a [sync.Once] that was
    running or done, and the [result] next to it, are untouched. *)
Record extends (st st' : State) : Prop := mkExtends {
  ext_locked : locked st = true -> locked st' = true;
  ext_frozen : locked st = true -> services st' = services st;
  ext_services : services st ⊆ services st';
  ext_length : length (envs st) <= length (envs st');
  ext_envs : forall o e,
    envs st !! o = Some e -> lazyBind e <> OnceFresh -> envs st' !! o = Some e
}.

(** The state a call leaves behind, when it returns or panics. *)
Definition post {A} (P : State -> Prop) (r : Res A) : Prop :=
  match r with
  | Ok _ st' => P st'
  | Panicked _ st' => P st'
  | Deadlock => True
  | OutOfFuel => True
  end.

Definition preserves {A} (m : M A) : Prop :=
  forall st, post (extends st) (m st).




(** ** Goroutines that resolve one singleton at the same time *)

(** What holds of a program all of whose goroutines resolve the singleton
    [N] (closure variables at [o], factory [c]) and return what they got,
    started in [sa] with the Once fresh, when a run of the factory from
    there ends in [st'] returning [v].  Either no goroutine has started yet;
    or one goroutine is on its way through the factory, towards [st'], the
    Once running, while the others still stand at their call; or the Once
    is done, the state is the one that run left with [v] stored, and every
    goroutine stands at its call, has the value [v] in hand, or has returned
    [v]. *)
Definition clients_inv (N : string) (o : nat) (c : Code) (v : any)
    (sa st' : State) (P : Pool) (st : State) : Prop :=
  (st = sa /\ forall j t, P !! j = Some t -> t = client N) \/
  (exists i t,
     P !! i = Some t /\
     (forall j t', j <> i -> P !! j = Some t' -> t' = client N) /\
     steps (t, st) ((Ret v, [FOnce o; FCall (fun v _ => Ret v)]), st') /\
     once_inv o [t] st /\
     lazyBind (env_at o st) = OnceRunning /\
     services st !! N = Some (OnceFn o c)) \/
  (st = set_lazyBind o OnceDone (store_result o v st') /\
   forall j t, P !! j = Some t ->
     t = client N \/ t = (Ret v, [FCall (fun v _ => Ret v)]) \/
     t = (Ret v, [])).

(** ** Further clients and notions *)

(** The loop of [TestDefaultContainer_Bind]:
    [for _, name := range list { err := container.Bind(name, handler) ... }],
    by a client that keeps the errors. *)
Fixpoint bind_names (names : list string) (handler : BinderFunc) : M (list error) :=
  match names with
  | [] => mret []
  | name :: names' =>
      err ← Bind name handler;
      errs ← bind_names names' handler;
      mret (err :: errs)
  end.

(** The variables of the singleton closures are their own: every stored
    closure of [BindSingleton] refers to variables that were allocated, and
    no two names share them. *)
Definition closures_private (st : State) : Prop :=
  (forall N o c, services st !! N = Some (OnceFn o c) -> o < length (envs st)) /\
  (forall N1 N2 o c1 c2,
     services st !! N1 = Some (OnceFn o c1) ->
     services st !! N2 = Some (OnceFn o c2) -> N1 = N2).

(** Caller code that calls no method of the container (it may call its
    resolver). *)
Fixpoint container_free (c : Code) : Prop :=
  match c with
  | Ret _ => True
  | Panic _ => True
  | Load _ k => forall v, container_free (k v)
  | Store _ _ k => container_free k
  | CallResolver _ k => forall v err, container_free (k v err)
  | CallBind _ _ _ _ => False
  | CallLock _ => False
  | Recover body k => container_free body /\ forall r, container_free (k r)
  end.

Definition body_of (b : BinderFunc) : Code :=
  match b with
  | UserFn body => body
  | OnceFn _ binder => binder
  end.

(** A table all of whose factories are such code. *)
Definition table_free (st : State) : Prop :=
  forall N b, services st !! N = Some b -> container_free (body_of b).

(** The outcome [r], had the container been locked meanwhile. *)
Definition with_lock {A} (r : Res A) : Res A :=
  match r with
  | Ok a st => Ok a (set_locked true st)
  | Panicked p st => Panicked p (set_locked true st)
  | Deadlock => Deadlock
  | OutOfFuel => OutOfFuel
  end.

(** Two resolvers of which the second sees the locked container. *)
Definition lock_blind (R R' : ResolverFunc) : Prop :=
  forall name st,
    table_free st ->
    R' name (set_locked true st) = with_lock (R name st) /\
    post (fun st' => services st' = services st) (R name st).

(** A container with a binding of each kind, none of which touches the
    container. *)
Definition st_two : State :=
  run (BindSingleton "once" (counter 1)) st_counter.

(** * Proofs *)

(** ** The order on states *)

#[global] Instance extends_refl : Reflexive extends.
Proof. intros st. split; auto. Qed.

#[global] Instance extends_trans : Transitive extends.
Proof.
  intros a b c [L1 F1 S1 N1 E1] [L2 F2 S2 N2 E2]. split.
  - auto.
  - intros H. rewrite F2 by auto. auto.
  - etrans; eauto.
  - lia.
  - eauto.
Qed.

Lemma extends_lookup st st' name b :
  extends st st' -> services st !! name = Some b -> services st' !! name = Some b.
Proof. intros [_ _ S _ _] H. eapply lookup_weaken; eauto. Qed.

Lemma extends_set_vars st v : extends st (set_vars v st).
Proof. split; simpl; auto. Qed.

Lemma extends_set_locked st : extends st (set_locked true st).
Proof. split; simpl; auto. Qed.

Lemma extends_alloc st e : extends st (set_envs (envs st ++ [e]) st).
Proof.
  split; simpl; auto.
  - rewrite length_app. lia.
  - intros o e' H _. apply lookup_app_l_Some. exact H.
Qed.

Lemma extends_insert_fresh st o e :
  lazyBind (env_at o st) = OnceFresh ->
  extends st (set_envs (<[o := e]> (envs st)) st).
Proof.
  intros Hf. split; simpl; auto.
  - rewrite length_insert. lia.
  - intros o' e' H Hne. destruct (decide (o = o')) as [->|Hd].
    + unfold env_at in Hf. rewrite H in Hf. simpl in Hf. congruence.
    + rewrite list_lookup_insert_ne; auto.
Qed.

Lemma Lock_preserves : preserves Lock.
Proof. intros st. apply extends_set_locked. Qed.

Lemma Bind_preserves name b : preserves (Bind name b).
Proof.
  intros st. unfold Bind.
  destruct (locked st) eqn:Hl; simpl; [reflexivity|].
  destruct (services st !! name) eqn:Hs; simpl; [reflexivity|].
  split; simpl; auto; try congruence.
  apply insert_subseteq. exact Hs.
Qed.

Lemma BindSingleton_preserves name c : preserves (BindSingleton name c).
Proof.
  intros st. unfold BindSingleton, mbind, M_bind, newSingletonEnv.
  pose proof (Bind_preserves name (OnceFn (length (envs st)) c)
                (set_envs (envs st ++ [mkEnv OnceFresh Nil]) st)) as H.
  destruct (Bind _ _ _) as [a st'|p st'| |]; simpl in *; auto;
    (etrans; [apply extends_alloc | exact H]).
Qed.

Lemma extends_modify_fresh st st1 o e :
  lazyBind (env_at o st) = OnceFresh ->
  extends st st1 ->
  extends st (set_envs (<[o := e]> (envs st1)) st1).
Proof.
  intros Hf [L F S N E]. split; simpl; auto.
  - rewrite length_insert. lia.
  - intros o' e' H Hne. destruct (decide (o = o')) as [->|Hd].
    + unfold env_at in Hf. rewrite H in Hf. simpl in Hf. congruence.
    + rewrite list_lookup_insert_ne; auto.
Qed.

Lemma post_mono {A} (P Q : State -> Prop) (r : Res A) :
  (forall st, P st -> Q st) -> post P r -> post Q r.
Proof. intros H. destruct r; simpl; auto. Qed.

Lemma bind_preserves {A B} (m : M A) (f : A -> M B) :
  preserves m -> (forall a, preserves (f a)) -> preserves (m ≫= f).
Proof.
  intros Hm Hf st. unfold mbind, M_bind.
  specialize (Hm st). destruct (m st) as [a st'|p st'| |]; simpl in *; auto.
  eapply post_mono; [|apply Hf]. intros st''. by etrans.
Qed.

Lemma ret_preserves {A} (a : A) : preserves (mret a).
Proof. intros st. simpl. reflexivity. Qed.

Lemma panic_preserves {A} p : preserves (@panic A p).
Proof. intros st. simpl. reflexivity. Qed.

(** Caller code keeps to [extends] when the resolver it calls does; so do
    the stored functions, the closure of [BindSingleton] included. *)
Section WithResolver.
Variable resolver : ResolverFunc.
Hypothesis resolver_preserves : forall name, preserves (resolver name).

Lemma exec_preserves c : preserves (exec resolver c).
Proof.
  induction c as [v|p|x k IH|x v k IH|name k IH|single name b _ k IH|k IH
                 |body IHb k IH]; simpl.
  - apply ret_preserves.
  - apply panic_preserves.
  - intros st. apply IH.
  - intros st. eapply post_mono; [|apply IH].
    intros st'. apply transitivity, extends_set_vars.
  - apply bind_preserves; [apply resolver_preserves|]. intros [v err]. apply IH.
  - apply bind_preserves; [|apply IH].
    destruct single; [apply BindSingleton_preserves|apply Bind_preserves].
  - apply bind_preserves; [apply Lock_preserves|]. intros _. apply IH.
  - intros st. specialize (IHb st).
    destruct (exec resolver body st) as [v st'|p st'| |]; simpl in *; auto;
      (eapply post_mono; [|apply IH]); intros st''; by etrans.
Qed.

Lemma invoke_preserves b : preserves (invoke b resolver).
Proof.
  destruct b as [body|o binder]; simpl; [apply exec_preserves|].
  intros st. unfold mbind, M_bind, onceDo, get_result.
  destruct (lazyBind (env_at o st)) eqn:Hf; simpl; [|done|reflexivity].
  assert (H0 : extends st (set_lazyBind o OnceRunning st))
    by (by apply extends_insert_fresh).
  pose proof (exec_preserves binder (set_lazyBind o OnceRunning st)) as H1.
  destruct (exec resolver binder _) as [v st1|p st1| |]; simpl in *; auto.
  - unfold set_lazyBind, store_result. apply extends_modify_fresh; [done|].
    apply extends_modify_fresh; [done|]. by etrans.
  - unfold set_lazyBind. apply extends_modify_fresh; [done|]. by etrans.
Qed.
End WithResolver.

(** Every resolution keeps to [extends], whatever the factories do. *)
Lemma Resolver_preserves fuel name : preserves (Resolver fuel name).
Proof.
  revert name. induction fuel as [|n IH]; intros name st; simpl;
    destruct (services st !! name) as [b|]; simpl; try reflexivity; auto.
  apply (bind_preserves (invoke b (Resolver n)) (fun v => mret (v, None))).
  - by apply invoke_preserves.
  - intros v. apply ret_preserves.
Qed.

(** ** The budget only decides whether a call is followed to its end *)








(** ** Type assertions *)

Lemma typeAssert_ok T t : snd (typeAssert T t) = matches T t.
Proof. by destruct T, t. Qed.

Lemma typeAssert_box T t v : typeAssert T t = (v, true) -> box T v = t.
Proof. destruct T, t; simpl; intros H; by inversion H. Qed.

Lemma typeAssert_zero T t : matches T t = false -> typeAssert T t = (zero T, false).
Proof. by destruct T, t. Qed.

(** ** Unfolding one call *)

Lemma Resolver_bound n name st b :
  services st !! name = Some b ->
  Resolver (S n) name st = (v ← invoke b (Resolver n); mret (v, None)) st.
Proof. intros H. simpl. by rewrite H. Qed.

Lemma Resolver_unbound fuel name st :
  services st !! name = None ->
  Resolver fuel name st = Ok (Nil, Some (errNotFound name)) st.
Proof. intros H. destruct fuel; simpl; by rewrite H. Qed.

Lemma Resolve_unfold T name (R : ResolverFunc) st :
  Resolve T name R st =
  match R name st with
  | Ok (t, Some e) st' => Ok (zero T, Some e) st'
  | Ok (t, None) st' =>
      if matches T t then Ok (fst (typeAssert T t), None) st'
      else Ok (fst (typeAssert T t), Some (errTypeMismatch name)) st'
  | Panicked p st' => Panicked p st'
  | Deadlock => Deadlock
  | OutOfFuel => OutOfFuel
  end.
Proof.
  unfold Resolve, mbind, M_bind.
  destruct (R name st) as [[t [e|]] st'|p st'| |]; try done.
  rewrite <- typeAssert_ok. by destruct (typeAssert T t) as [v []].
Qed.

Lemma Bind_locked name b st :
  locked st = true -> Bind name b st = Ok (Some errLocked) st.
Proof. intros H. unfold Bind. by rewrite H. Qed.

Lemma Bind_taken name b b' st :
  locked st = false -> services st !! name = Some b' ->
  Bind name b st = Ok (Some (errAlreadyBound name)) st.
Proof. intros H1 H2. unfold Bind. by rewrite H1, H2. Qed.

Lemma Bind_free name b st :
  locked st = false -> services st !! name = None ->
  Bind name b st = Ok None (set_services (<[name := b]> (services st)) st).
Proof. intros H1 H2. unfold Bind. by rewrite H1, H2. Qed.

Lemma BindSingleton_unfold name c st :
  BindSingleton name c st =
  Bind name (OnceFn (length (envs st)) c)
    (set_envs (envs st ++ [mkEnv OnceFresh Nil]) st).
Proof. reflexivity. Qed.

(** ** Binding *)

(** C1. In an unlocked container where [N] is not bound, [Bind(N, f)]
    returns a nil error and stores [f] under [N].  From then on, in whatever
    state later calls have left the program, resolving [N] through a
    resolver of the container runs the body of [f] on that state, handing it
    a resolver of the container: nothing of an earlier run is kept, so a
    second resolution runs [f] again on the state the first one left. *)
Theorem Bind_fresh_then_resolved_anew (st : State) (N : string) (f : Code) :
  locked st = false ->
  services st !! N = None ->
  exists st1,
    Bind N (UserFn f) st = Ok None st1 /\
    services st1 = <[N := UserFn f]> (services st) /\
    (forall st2 n, extends st1 st2 ->
       Resolver (S n) N st2 = (v ← exec (Resolver n) f; mret (v, None)) st2) /\
    (forall n m r1 st2,
       Resolver (S n) N st1 = Ok r1 st2 ->
       Resolver (S n) N st1 = (v ← exec (Resolver n) f; mret (v, None)) st1 /\
       Resolver (S m) N st2 = (v ← exec (Resolver m) f; mret (v, None)) st2).
Proof.
  intros Hl Hs. eexists. split; [by apply Bind_free|].
  set (st1 := set_services _ st).
  assert (Hb : services st1 !! N = Some (UserFn f)) by apply lookup_insert_eq.
  assert (Hall : forall st2 n, extends st1 st2 ->
            Resolver (S n) N st2 = (v ← exec (Resolver n) f; mret (v, None)) st2).
  { intros st2 n He. apply (Resolver_bound n N st2 (UserFn f)).
    by eapply extends_lookup. }
  split; [done|]. split; [done|].
  intros n m r1 st2 H. split; [by apply Hall|]. apply Hall.
  pose proof (Resolver_preserves (S n) N st1) as P. by rewrite H in P.
Qed.

(** C3. In an unlocked container where [N] is bound, [Bind(N, f2)] returns
    the already-bound error and leaves the state as it was, and
    [BindSingleton(N, f2)] returns the same error and leaves the table (and
    the lock, and the callers' variables) as they were.  The binding of [N]
    is the same in every later state, and resolving [N] there calls the
    function that was bound first. *)
Theorem Bind_taken_rejected (st : State) (N : string) (b b2 : BinderFunc) (f2 : Code) :
  locked st = false ->
  services st !! N = Some b ->
  Bind N b2 st = Ok (Some (errAlreadyBound N)) st /\
  (exists st', BindSingleton N f2 st = Ok (Some (errAlreadyBound N)) st' /\
     services st' = services st /\ locked st' = locked st /\
     vars st' = vars st /\ extends st st') /\
  (forall st2 n, extends st st2 ->
     services st2 !! N = Some b /\
     Resolver (S n) N st2 = (v ← invoke b (Resolver n); mret (v, None)) st2).
Proof.
  intros Hl Hs. split; [by eapply Bind_taken|]. split.
  - eexists. rewrite BindSingleton_unfold. split; [by eapply Bind_taken|].
    split_and!; try done. apply extends_alloc.
  - intros st2 n He. pose proof (extends_lookup _ _ _ _ He Hs) as H.
    split; [done|]. by apply Resolver_bound.
Qed.

(** C4. Once [Lock()] has been called, in whatever state later calls have
    left the program, [Bind] and [BindSingleton] return the locked error for
    every name, bound or not, and leave the table as it was. *)
Theorem Bind_after_Lock_rejected (st0 st1 st : State) (name : string)
    (b : BinderFunc) (f : Code) :
  Lock st0 = Ok tt st1 ->
  extends st1 st ->
  Bind name b st = Ok (Some errLocked) st /\
  exists st', BindSingleton name f st = Ok (Some errLocked) st' /\
    services st' = services st /\ locked st' = true.
Proof.
  intros HL He. assert (Hl : locked st = true).
  { apply He. inversion HL. reflexivity. }
  split; [by apply Bind_locked|].
  eexists. rewrite BindSingleton_unfold. split; [by apply Bind_locked|]. done.
Qed.

(** ** Locking *)

Lemma Resolve_preserves T name R :
  (forall n, preserves (R n)) -> preserves (Resolve T name R).
Proof.
  intros HR. apply bind_preserves; [apply HR|]. intros [t [e|]].
  - apply ret_preserves.
  - destruct (typeAssert T t) as [v []]; apply ret_preserves.
Qed.

Lemma MustResolve_preserves T name R :
  (forall n, preserves (R n)) -> preserves (MustResolve T name R).
Proof.
  intros HR. apply bind_preserves; [by apply Resolve_preserves|].
  intros [v [e|]]; [apply panic_preserves|apply ret_preserves].
Qed.

Lemma MustBind_preserves name b : preserves (MustBind name b).
Proof.
  apply bind_preserves; [apply Bind_preserves|].
  intros [e|]; [apply panic_preserves|apply ret_preserves].
Qed.

Lemma MustBindSingleton_preserves name c : preserves (MustBindSingleton name c).
Proof.
  apply bind_preserves; [apply BindSingleton_preserves|].
  intros [e|]; [apply panic_preserves|apply ret_preserves].
Qed.

Lemma discard_preserves {A} (m : M A) : preserves m -> preserves (discard m).
Proof. intros H. apply bind_preserves; [done|]. intros; apply ret_preserves. Qed.

Lemma perform_preserves fuel c : preserves (perform fuel c).
Proof.
  destruct c; simpl;
    auto using Lock_preserves, Bind_preserves, MustBind_preserves,
      BindSingleton_preserves, MustBindSingleton_preserves,
      Resolver_preserves, Resolve_preserves, MustResolve_preserves,
      discard_preserves.
Qed.

Lemma perform_all_preserves fuel cs : preserves (perform_all fuel cs).
Proof.
  induction cs as [|c cs IH]; simpl; [apply ret_preserves|].
  apply bind_preserves; [apply perform_preserves|done].
Qed.

(** C5. [Lock()] sets [locked] and changes nothing else: not the table, not
    the variables of the singleton closures (so no cached value), not the
    callers' variables; a second [Lock()] leaves the state as the first one
    left it.  Whatever calls a client then makes, in whatever state they end
    (returning or panicking), a container that was locked is still locked
    and its table is the table it had. *)
Theorem locked_is_final (st : State) :
  (exists st1,
     Lock st = Ok tt st1 /\ locked st1 = true /\
     services st1 = services st /\ envs st1 = envs st /\ vars st1 = vars st /\
     Lock st1 = Ok tt st1) /\
  (forall fuel cs,
     locked st = true ->
     post (fun st' => locked st' = true /\ services st' = services st)
          (perform_all fuel cs st)).
Proof.
  split.
  - eexists. split; [reflexivity|]. split_and!; reflexivity.
  - intros fuel cs Hl. eapply post_mono; [|apply perform_all_preserves].
    intros st' [L F _ _ _]. auto.
Qed.

(** ** Resolution *)

(** C6. Calling a resolver of the container with a name that has no binding
    returns the nil value and the not-found error; it does not panic, does
    not depend on the budget, and leaves the state as it was. *)
Theorem Resolver_unbound_NotFound (fuel : nat) (N : string) (st : State) :
  services st !! N = None ->
  Resolver fuel N st = Ok (Nil, Some (errNotFound N)) st.
Proof. apply Resolver_unbound. Qed.

(** C7. [Resolve[T](name, resolver)], for any resolver that returns: an
    error of the resolver comes back as it is, with the zero value of [T];
    a value whose dynamic type does not satisfy [T] gives the conversion
    error; a value whose dynamic type satisfies [T] comes back as a [T],
    with a nil error.  The state is the one the resolver left. *)
Theorem Resolve_contract (T : GoType) (name : string) (R : ResolverFunc) (st : State) :
  (forall t e st', R name st = Ok (t, Some e) st' ->
     Resolve T name R st = Ok (zero T, Some e) st') /\
  (forall t st', R name st = Ok (t, None) st' -> matches T t = false ->
     exists v, Resolve T name R st = Ok (v, Some (errTypeMismatch name)) st') /\
  (forall t st', R name st = Ok (t, None) st' -> matches T t = true ->
     exists v, box T v = t /\ Resolve T name R st = Ok (v, None) st').
Proof.
  split_and!.
  - intros t e st' H. by rewrite Resolve_unfold, H.
  - intros t st' H Hm. rewrite Resolve_unfold, H, Hm. eauto.
  - intros t st' H Hm. rewrite Resolve_unfold, H, Hm. eexists. split; [|done].
    apply typeAssert_box. rewrite <- Hm, <- typeAssert_ok.
    by destruct (typeAssert T t).
Qed.

(** C10. When the resolver returns a value whose dynamic type does not
    satisfy [T], the [T] that [Resolve[T]] returns next to the conversion
    error is the zero value of [T]. *)
Theorem Resolve_mismatch_zero (T : GoType) (name : string) (R : ResolverFunc)
    (st st' : State) (t : any) :
  R name st = Ok (t, None) st' ->
  matches T t = false ->
  Resolve T name R st = Ok (zero T, Some (errTypeMismatch name)) st'.
Proof.
  intros H Hm. rewrite Resolve_unfold, H, Hm. by rewrite typeAssert_zero.
Qed.

(** ** Singletons *)

Lemma env_at_lookup o st e : envs st !! o = Some e -> env_at o st = e.
Proof. unfold env_at. by intros ->. Qed.

(** The first call of the closure of [BindSingleton]: the Once is fresh, so
    the caller's [binder] runs, with the Once marked as running; what it
    returns is stored in [result] and returned, and the Once is done. *)
Lemma invoke_once_fresh R o c st e0 v st' :
  envs st !! o = Some e0 -> lazyBind e0 = OnceFresh ->
  (forall name, preserves (R name)) ->
  exec R c (set_lazyBind o OnceRunning st) = Ok v st' ->
  invoke (OnceFn o c) R st
    = Ok v (set_lazyBind o OnceDone (store_result o v st')) /\
  envs (set_lazyBind o OnceDone (store_result o v st')) !! o
    = Some (mkEnv OnceDone v).
Proof.
  intros He Hf HR Hx.
  assert (Hlt : o < length (envs st)) by (by eapply lookup_lt_Some).
  pose proof (exec_preserves R HR c (set_lazyBind o OnceRunning st)) as P.
  rewrite Hx in P. simpl in P. destruct P as [_ _ _ L _].
  unfold set_lazyBind in L at 1. simpl in L. rewrite length_insert in L.
  assert (Hlt' : o < length (envs st')) by lia.
  assert (Hd : envs (set_lazyBind o OnceDone (store_result o v st')) !! o
               = Some (mkEnv OnceDone v)).
  { unfold set_lazyBind, store_result, env_at. simpl.
    rewrite !list_lookup_insert_eq by (rewrite ?length_insert; lia). done. }
  split; [|done].
  simpl. unfold mbind, M_bind, onceDo, get_result, set_result.
  rewrite (env_at_lookup _ _ _ He), Hf, Hx.
  by rewrite (env_at_lookup _ _ _ Hd).
Qed.

(** A later call: the Once is done, so [result] is returned and nothing
    runs. *)
Lemma invoke_once_done R o c st v :
  envs st !! o = Some (mkEnv OnceDone v) ->
  invoke (OnceFn o c) R st = Ok v st.
Proof.
  intros He. simpl. unfold mbind, M_bind, onceDo, get_result.
  rewrite (env_at_lookup _ _ _ He). simpl.
  by rewrite (env_at_lookup _ _ _ He).
Qed.

Lemma Resolver_once_done n N o c st v :
  services st !! N = Some (OnceFn o c) ->
  envs st !! o = Some (mkEnv OnceDone v) ->
  Resolver (S n) N st = Ok (v, None) st.
Proof.
  intros Hs He. rewrite (Resolver_bound _ _ _ _ Hs).
  unfold mbind, M_bind. by rewrite (invoke_once_done _ _ _ _ _ He).
Qed.

Lemma resolve_times_const n k N st v :
  Resolver n N st = Ok (v, None) st ->
  resolve_times n k N st = Ok (replicate k v) st.
Proof.
  intros H. induction k as [|k IH]; simpl; [done|].
  unfold mbind, M_bind in *. by rewrite H, IH.
Qed.

Lemma BindSingleton_ok N c st0 st :
  BindSingleton N c st0 = Ok None st ->
  services st !! N = Some (OnceFn (length (envs st0)) c) /\
  envs st = (envs st0 ++ [mkEnv OnceFresh Nil])%list.
Proof.
  rewrite BindSingleton_unfold. unfold Bind. simpl.
  destruct (locked st0); [done|]. destruct (services st0 !! N); [done|].
  intros H. inversion H; subst. simpl. split; [apply lookup_insert_eq|done].
Qed.


(** ** A factory's resolver *)


(** ** The panicking variants *)

Lemma MustBind_unfold name b st :
  MustBind name b st =
  match Bind name b st with
  | Ok (Some msg) st' => Panicked (Str msg) st'
  | Ok None st' => Ok tt st'
  | Panicked p st' => Panicked p st'
  | Deadlock => Deadlock
  | OutOfFuel => OutOfFuel
  end.
Proof.
  unfold MustBind, mbind, M_bind. by destruct (Bind name b st) as [[?|] ?| | |].
Qed.

Lemma MustBindSingleton_unfold name c st :
  MustBindSingleton name c st =
  match BindSingleton name c st with
  | Ok (Some msg) st' => Panicked (Str msg) st'
  | Ok None st' => Ok tt st'
  | Panicked p st' => Panicked p st'
  | Deadlock => Deadlock
  | OutOfFuel => OutOfFuel
  end.
Proof.
  unfold MustBindSingleton. unfold mbind at 1, M_bind.
  by destruct (BindSingleton name c st) as [[?|] ?| | |].
Qed.

Lemma MustResolve_unfold T name R st :
  MustResolve T name R st =
  match Resolve T name R st with
  | Ok (v, Some e) st' => Panicked (Err e) st'
  | Ok (v, None) st' => Ok v st'
  | Panicked p st' => Panicked p st'
  | Deadlock => Deadlock
  | OutOfFuel => OutOfFuel
  end.
Proof.
  unfold MustResolve. unfold mbind at 1, M_bind.
  by destruct (Resolve T name R st) as [[? [?|]] ?| | |].
Qed.

Lemma Bind_returns name b st : exists e st', Bind name b st = Ok e st'.
Proof.
  unfold Bind. destruct (locked st); [eauto|].
  destruct (services st !! name); eauto.
Qed.

Lemma BindSingleton_returns name c st :
  exists e st', BindSingleton name c st = Ok e st'.
Proof. rewrite BindSingleton_unfold. apply Bind_returns. Qed.

(** C8, as the code has it.  [MustBind] and [MustBindSingleton] panic (with
    the error's message) exactly when [Bind] and [BindSingleton] return a
    non-nil error, and otherwise return in the state these leave.
    [MustResolve[T]] panics with the error whenever [Resolve[T]] returns a
    non-nil error, and returns the same value in the same state exactly when
    [Resolve[T]] returns a nil error; its only other panics are those of the
    resolver itself, which pass through [Resolve[T]] and it unchanged. *)
Theorem Must_variants_contract :
  (forall name b st,
     (forall msg st', Bind name b st = Ok (Some msg) st' <->
                      MustBind name b st = Panicked (Str msg) st') /\
     (forall p st', MustBind name b st = Panicked p st' ->
                    exists msg, p = Str msg /\ Bind name b st = Ok (Some msg) st') /\
     (forall st', Bind name b st = Ok None st' <->
                  MustBind name b st = Ok tt st')) /\
  (forall name c st,
     (forall msg st', BindSingleton name c st = Ok (Some msg) st' <->
                      MustBindSingleton name c st = Panicked (Str msg) st') /\
     (forall p st', MustBindSingleton name c st = Panicked p st' ->
                    exists msg, p = Str msg /\
                      BindSingleton name c st = Ok (Some msg) st') /\
     (forall st', BindSingleton name c st = Ok None st' <->
                  MustBindSingleton name c st = Ok tt st')) /\
  (forall T name R st,
     (forall v e st', Resolve T name R st = Ok (v, Some e) st' ->
                      MustResolve T name R st = Panicked (Err e) st') /\
     (forall v st', Resolve T name R st = Ok (v, None) st' <->
                    MustResolve T name R st = Ok v st') /\
     (forall p st', MustResolve T name R st = Panicked p st' <->
                    (exists v e, p = Err e /\
                       Resolve T name R st = Ok (v, Some e) st') \/
                    (Resolve T name R st = Panicked p st' /\
                       R name st = Panicked p st'))).
Proof.
  split_and!.
  - intros name b st. rewrite MustBind_unfold.
    destruct (Bind_returns name b st) as (e & st1 & ->). split_and!.
    + intros msg st'. destruct e; split; intros H; by inversion H.
    + intros p st' H. destruct e; inversion H; subst; eauto.
    + intros st'. destruct e; split; intros H; by inversion H.
  - intros name c st. rewrite MustBindSingleton_unfold.
    destruct (BindSingleton_returns name c st) as (e & st1 & ->). split_and!.
    + intros msg st'. destruct e; split; intros H; by inversion H.
    + intros p st' H. destruct e; inversion H; subst; eauto.
    + intros st'. destruct e; split; intros H; by inversion H.
  - intros T name R st. rewrite MustResolve_unfold, Resolve_unfold.
    destruct (R name st) as [[t [e|]] st1|p1 st1| |];
      [| destruct (matches T t) | | |]; split_and!.
    all: try (intros v e' st' H; by inversion H).
    all: try (intros v st'; split; intros H; by inversion H).
    all: intros p st'; split;
      [intros H; inversion H; subst; eauto
      |intros [(v & e' & -> & H)|[H _]]; by inversion H].
Qed.

(** ** Goroutines: the steps follow the calls *)

Lemma steps_trans a b c : steps a b -> steps b c -> steps a c.
Proof. induction 1; [done|]. intros. eapply steps_step; eauto. Qed.

Lemma steps_one t st t' st' : step st t = Some (t', st') -> steps (t, st) (t', st').
Proof. intros. eapply steps_step; [done|apply steps_refl]. Qed.

Lemma reaches_step {A} (ret : A -> Code) c fs st c' fs' st' r :
  step st (c, fs) = Some ((c', fs'), st') ->
  match r with
  | Ok a st'' => steps ((c', fs'), st') ((ret a, fs), st'')
  | Panicked p st'' => steps ((c', fs'), st') ((Panic p, fs), st'')
  | _ => True
  end ->
  reaches ret c fs st r.
Proof.
  intros H. destruct r; simpl; try done; intros; by eapply steps_step.
Qed.

(** The steps of a goroutine arrive where the call-to-return semantics
    says the code ends. *)
Lemma exec_reaches R c :
  tracked R -> forall fs st, reaches Ret c fs st (exec R c st).
Proof.
  intros HR.
  induction c as [v|p|x k IH|x v k IH|name k IH|single name b _ k IH|k IH
                 |body IHb k IH]; intros fs st; simpl.
  - apply steps_refl.
  - apply steps_refl.
  - eapply reaches_step; [reflexivity|]. apply IH.
  - eapply reaches_step; [reflexivity|]. apply IH.
  - unfold mbind, M_bind. specialize (HR name k fs st).
    destruct (R name st) as [[v err] st'|p st'| |]; simpl in *; try done.
    specialize (IH v err fs st').
    destruct (exec R (k v err) st'); simpl in *; try done;
      by eapply steps_trans.
  - unfold mbind, M_bind.
    assert (Hb : exists err st',
               (if single then BindSingleton name b else Bind name (UserFn b)) st
               = Ok err st').
    { destruct single; [apply BindSingleton_returns|apply Bind_returns]. }
    destruct Hb as (err & st' & Hb). rewrite Hb.
    eapply reaches_step; [simpl; by rewrite Hb|]. apply IH.
  - eapply reaches_step; [reflexivity|]. apply IH.
  - specialize (IHb (FRecover k :: fs) st).
    eapply reaches_step; [reflexivity|].
    destruct (exec R body st) as [v st'|p st'| |]; simpl in *; try done.
    + specialize (IH (inl v) fs st').
      destruct (exec R (k (inl v)) st'); simpl in *; try done;
        (eapply steps_trans; [exact IHb|]); by eapply steps_step.
    + specialize (IH (inr p) fs st').
      destruct (exec R (k (inr p)) st'); simpl in *; try done;
        (eapply steps_trans; [exact IHb|]); by eapply steps_step.
Qed.

Lemma Resolver_tracked n : tracked (Resolver n).
Proof.
  induction n as [|n IH]; intros name k fs st.
  - simpl. destruct (services st !! name) as [b|] eqn:Hs; simpl; [done|].
    apply steps_one. simpl. by rewrite Hs.
  - destruct (services st !! name) as [[body|o binder]|] eqn:Hs.
    + rewrite (Resolver_bound _ _ _ _ Hs). simpl. unfold mbind, M_bind.
      pose proof (exec_reaches _ body IH (FCall k :: fs) st) as Hb.
      eapply reaches_step; [simpl; by rewrite Hs|].
      destruct (exec (Resolver n) body st) as [v st'|p st'| |]; simpl in *;
        try done; (eapply steps_trans; [exact Hb|]); by apply steps_one.
    + rewrite (Resolver_bound _ _ _ _ Hs). simpl.
      unfold mbind, M_bind, onceDo, get_result, set_result.
      destruct (lazyBind (env_at o st)) eqn:Ho; simpl; try done.
      * pose proof (exec_reaches _ binder IH (FOnce o :: FCall k :: fs)
                      (set_lazyBind o OnceRunning st)) as Hb.
        eapply reaches_step; [simpl; by rewrite Hs, Ho|].
        destruct (exec (Resolver n) binder _) as [v st'|p st'| |]; simpl in *;
          try done; (eapply steps_trans; [exact Hb|]);
          (eapply steps_step; [reflexivity|]); by apply steps_one.
      * apply steps_one. simpl. by rewrite Hs, Ho.
    + rewrite (Resolver_unbound _ _ _ Hs). simpl.
      apply steps_one. simpl. by rewrite Hs.
Qed.

(** Whatever a resolution returns, or panics with, in the call-to-return
    semantics, a goroutine that makes the call gets there step by step. *)
Lemma client_reaches n name st v err st' :
  Resolver n name st = Ok (v, err) st' ->
  steps (client name, st) ((Ret v, []), st').
Proof.
  intros H. pose proof (Resolver_tracked n name (fun v _ => Ret v) [] st) as T.
  rewrite H in T. exact T.
Qed.

(** ** Goroutines: one run of a singleton's factory, under every schedule *)

Lemma frames_in_insert o (P : Pool) i t t' :
  P !! i = Some t ->
  frames_in o (<[i := t']> P) + frames_of o t = frames_in o P + frames_of o t'.
Proof.
  unfold frames_in. revert i. induction P as [|a P IH]; intros [|i] H;
    csimpl in *; try done.
  - inversion H. lia.
  - specialize (IH i H). lia.
Qed.

Lemma frames_in_ge o (P : Pool) i t :
  P !! i = Some t -> frames_of o t <= frames_in o P.
Proof.
  unfold frames_in. revert i. induction P as [|a P IH]; intros [|i] H;
    csimpl in *; try done.
  - inversion H. lia.
  - specialize (IH i H). lia.
Qed.

Lemma frames_of_cons o c f fs :
  frames_of o (c, f :: fs)
  = (if is_once o f then 1 else 0) + frames_of o (c, fs).
Proof.
  unfold frames_of. simpl. rewrite filter_cons.
  destruct (is_once o f); by case_decide.
Qed.

Lemma env_at_set_other o o' e st :
  o <> o' -> env_at o (set_envs (<[o' := e]> (envs st)) st) = env_at o st.
Proof.
  intros H. unfold env_at. simpl. by rewrite list_lookup_insert_ne.
Qed.

Lemma env_at_set_same o e st :
  o < length (envs st) -> env_at o (set_envs (<[o := e]> (envs st)) st) = e.
Proof.
  intros H. unfold env_at. simpl. by rewrite list_lookup_insert_eq.
Qed.

Lemma Bind_envs name b st e st' :
  Bind name b st = Ok e st' -> envs st' = envs st.
Proof.
  unfold Bind. destruct (locked st); [by inversion 1|].
  destruct (services st !! name); by inversion 1.
Qed.

Lemma set_lazyBind_length o s st :
  length (envs (set_lazyBind o s st)) = length (envs st).
Proof. unfold set_lazyBind. simpl. apply length_insert. Qed.

Lemma store_result_length o v st :
  length (envs (store_result o v st)) = length (envs st).
Proof. unfold store_result. simpl. apply length_insert. Qed.

Lemma set_lazyBind_same o s st :
  o < length (envs st) -> lazyBind (env_at o (set_lazyBind o s st)) = s.
Proof. intros H. unfold set_lazyBind. by rewrite env_at_set_same. Qed.

Lemma set_lazyBind_other o o' s st :
  o <> o' -> env_at o (set_lazyBind o' s st) = env_at o st.
Proof. intros H. unfold set_lazyBind. by rewrite env_at_set_other. Qed.

Lemma store_result_other o o' v st :
  o <> o' -> env_at o (store_result o' v st) = env_at o st.
Proof. intros H. unfold store_result. by rewrite env_at_set_other. Qed.

(** What one step of a goroutine does to the Once at [o]: it starts the
    factory (the Once was fresh, and the goroutine is now inside its [Do]),
    or it leaves the [Do] it was inside of (the Once is now done), or it
    leaves the variables at [o] alone. *)
Lemma step_once o st t t' st' :
  step st t = Some (t', st') ->
  o < length (envs st) ->
  length (envs st) <= length (envs st') /\
  ((starts o st t = true /\ lazyBind (env_at o st) = OnceFresh /\
    lazyBind (env_at o st') = OnceRunning /\
    frames_of o t' = S (frames_of o t)) \/
   (starts o st t = false /\ frames_of o t = S (frames_of o t') /\
    lazyBind (env_at o st') = OnceDone) \/
   (starts o st t = false /\ frames_of o t' = frames_of o t /\
    env_at o st' = env_at o st)).
Proof.
  destruct t as [c fs]. intros H Hlt.
  destruct c as [v|p|x k|x v k|name k|single name b k|k|body k]; simpl in H.
  - destruct fs as [|[k|o'|k] fs']; inversion H; subst; clear H;
      try (split; [done|]; right; right; by split_and!).
    rewrite set_lazyBind_length, store_result_length. split; [done|]. right.
    rewrite (frames_of_cons o _ (FOnce o')). simpl.
    destruct (decide (o' = o)) as [->|Hne].
    + left. rewrite bool_decide_eq_true_2 by done. split_and!; try done.
      apply set_lazyBind_same. by rewrite store_result_length.
    + right. rewrite bool_decide_eq_false_2 by done. split_and!; try done.
      rewrite set_lazyBind_other, store_result_other; done.
  - destruct fs as [|[k|o'|k] fs']; inversion H; subst; clear H;
      try (split; [done|]; right; right; by split_and!).
    rewrite set_lazyBind_length. split; [done|]. right.
    rewrite (frames_of_cons o _ (FOnce o')). simpl.
    destruct (decide (o' = o)) as [->|Hne].
    + left. rewrite bool_decide_eq_true_2 by done. split_and!; try done.
      by apply set_lazyBind_same.
    + right. rewrite bool_decide_eq_false_2 by done. split_and!; try done.
      by rewrite set_lazyBind_other.
  - inversion H; subst. split; [done|]. right; right. done.
  - inversion H; subst. split; [done|]. right; right. done.
  - unfold starts. simpl.
    destruct (services st !! name) as [[body|o' binder]|] eqn:Hs;
      [| |inversion H; subst; split; [done|]; right; right; done].
    + inversion H; subst. split; [done|]. right; right. done.
    + destruct (lazyBind (env_at o' st)) eqn:Ho; inversion H; subst; clear H;
        [|split; [done|]; right; right; done].
      rewrite set_lazyBind_length. split; [done|].
      rewrite (frames_of_cons o _ (FOnce o')). simpl.
      destruct (decide (o' = o)) as [->|Hne].
      * left. rewrite !bool_decide_eq_true_2 by done. split_and!; try done.
        by apply set_lazyBind_same.
      * right; right. rewrite !bool_decide_eq_false_2 by done.
        split_and!; try done. by rewrite set_lazyBind_other.
  - destruct single.
    + rewrite BindSingleton_unfold in H.
      destruct (Bind _ _ _) as [e st1| | |] eqn:HB; inversion H; subst; clear H.
      apply Bind_envs in HB. simpl in HB. split.
      * rewrite HB, length_app. lia.
      * right; right. split_and!; try done.
        unfold env_at. rewrite HB. by rewrite lookup_app_l.
    + destruct (Bind _ _ _) as [e st1| | |] eqn:HB; inversion H; subst; clear H.
      apply Bind_envs in HB. split; [by rewrite HB|].
      right; right. split_and!; try done. unfold env_at. by rewrite HB.
  - inversion H; subst. split; [done|]. right; right. done.
  - inversion H; subst. split; [done|]. right; right. done.
Qed.

(** The same for a step of a program, with the invariant of the Once. *)
Lemma pool_step_once o i (P P' : Pool) st st' :
  pool_step i P st = Some (P', st') ->
  once_inv o P st ->
  once_inv o P' st' /\
  ((starts o st (default (Ret Nil, []) (P !! i)) = true /\
    lazyBind (env_at o st) = OnceFresh /\
    lazyBind (env_at o st') = OnceRunning) \/
   (starts o st (default (Ret Nil, []) (P !! i)) = false /\
    lazyBind (env_at o st) = OnceRunning /\
    lazyBind (env_at o st') = OnceDone) \/
   (starts o st (default (Ret Nil, []) (P !! i)) = false /\
    env_at o st' = env_at o st)).
Proof.
  unfold pool_step, once_inv. intros H [Hlt Hfr].
  destruct (P !! i) as [t|] eqn:Ht; [|done].
  destruct (step st t) as [[t' st1]|] eqn:Hst; [|done].
  inversion H; subst; clear H. simpl.
  destruct (step_once o _ _ _ _ Hst Hlt) as [Hlen Hcase].
  pose proof (frames_in_insert o P i t t' Ht) as Hins.
  pose proof (frames_in_ge o P i t Ht) as Hge.
  destruct Hcase as [(Hs & Hf & Hr & Hn)|[(Hs & Hn & Hd)|(Hs & Hn & He)]].
  - rewrite Hf in Hfr. rewrite Hr. split; [split; lia|]. left. done.
  - destruct (lazyBind (env_at o st)) eqn:Ho; try lia.
    rewrite Hd. split; [split; lia|]. right; left. done.
  - rewrite He. split; [split; lia|]. right; right. done.
Qed.

Lemma run_schedule_once o sched (P : Pool) st :
  once_inv o P st ->
  once_inv o (run_schedule sched P st).1 (run_schedule sched P st).2 /\
  (lazyBind (env_at o st) <> OnceFresh ->
   lazyBind (env_at o (run_schedule sched P st).2) <> OnceFresh /\
   count_starts o sched P st = 0) /\
  (lazyBind (env_at o st) = OnceDone ->
   env_at o (run_schedule sched P st).2 = env_at o st) /\
  (lazyBind (env_at o st) = OnceFresh ->
   count_starts o sched P st
   = if decide (lazyBind (env_at o (run_schedule sched P st).2) = OnceFresh)
     then 0 else 1).
Proof.
  revert P st. induction sched as [|i sched IH]; intros P st Hinv; simpl.
  - split_and!; try done. intros H. by rewrite decide_True.
  - destruct (pool_step i P st) as [[P' st']|] eqn:Hp; [|by apply IH].
    destruct (pool_step_once o i P P' st st' Hp Hinv) as [Hinv' Hcase].
    destruct (IH P' st' Hinv') as (I1 & I2 & I3 & I4).
    split; [done|].
    destruct Hcase as [(Hs & Hf & Hr)|[(Hs & Hr & Hd)|(Hs & He)]]; rewrite Hs.
    + assert (Hne : lazyBind (env_at o st') <> OnceFresh) by congruence.
      destruct (I2 Hne) as [J1 J2]. split_and!; try congruence.
      intros _. rewrite J2. by rewrite decide_False.
    + assert (Hne : lazyBind (env_at o st') <> OnceFresh) by congruence.
      destruct (I2 Hne) as [J1 J2]. split_and!; try congruence.
      intros _. done.
    + rewrite He in *. split_and!; done.
Qed.

(** Under every schedule of every program: the factory of a singleton is
    started at most once, and exactly once as soon as the Once of the binding
    is no longer fresh; and once it is done, [result] keeps its value and
    the factory is not started again, whatever runs afterwards.  (A
    goroutine that resolves the name then goes on with that [result], by the
    definition of [step].) *)
Theorem singleton_once_under_every_schedule (o : nat) (sched sched' : list nat)
    (P : Pool) (st : State) :
  o < length (envs st) ->
  lazyBind (env_at o st) = OnceFresh ->
  frames_in o P = 0 ->
  count_starts o sched P st <= 1 /\
  (lazyBind (env_at o (run_schedule sched P st).2) <> OnceFresh ->
   count_starts o sched P st = 1) /\
  (lazyBind (env_at o (run_schedule sched P st).2) = OnceDone ->
   env_at o (run_schedule sched' (run_schedule sched P st).1
                                 (run_schedule sched P st).2).2
   = env_at o (run_schedule sched P st).2 /\
   count_starts o sched' (run_schedule sched P st).1
                         (run_schedule sched P st).2 = 0).
Proof.
  intros Hlt Hf Hfr. assert (Hinv : once_inv o P st).
  { split; [done|]. by rewrite Hf. }
  destruct (run_schedule_once o sched P st Hinv) as (I1 & _ & _ & I4).
  specialize (I4 Hf). split_and!.
  - rewrite I4. case_decide; lia.
  - intros H. rewrite I4. by rewrite decide_False.
  - intros Hd.
    destruct (run_schedule_once o sched' _ _ I1) as (_ & J2 & J3 & _).
    split; [by apply J3|]. apply J2. congruence.
Qed.

(** A goroutine that resolves a singleton whose Once is done goes on with
    [result], and changes nothing. *)
Lemma step_resolve_done st name o c k fs :
  services st !! name = Some (OnceFn o c) ->
  lazyBind (env_at o st) = OnceDone ->
  step st (CallResolver name k, fs)
  = Some ((k (result (env_at o st)) None, fs), st).
Proof. intros Hs Hd. simpl. by rewrite Hs, Hd. Qed.

Lemma step_services st t t' st' :
  step st t = Some (t', st') -> services st ⊆ services st'.
Proof.
  destruct t as [c fs].
  destruct c as [v|p|x k|x v k|name k|single name b k|k|body k]; simpl.
  - destruct fs as [|[k|o'|k] fs']; inversion 1; done.
  - destruct fs as [|[k|o'|k] fs']; inversion 1; done.
  - inversion 1; done.
  - inversion 1; done.
  - destruct (services st !! name) as [[body|o' binder]|]; try (inversion 1; done).
    destruct (lazyBind (env_at o' st)); inversion 1; done.
  - pose proof (BindSingleton_preserves name b st) as H1.
    pose proof (Bind_preserves name (UserFn b) st) as H2.
    destruct single.
    + destruct (BindSingleton name b st); inversion 1; subst. apply H1.
    + destruct (Bind name (UserFn b) st); inversion 1; subst. apply H2.
  - inversion 1; done.
  - inversion 1; done.
Qed.

Lemma run_schedule_services sched (P : Pool) st :
  services st ⊆ services (run_schedule sched P st).2.
Proof.
  revert P st. induction sched as [|i sched IH]; intros P st; simpl; [done|].
  unfold pool_step. destruct (P !! i) as [t|]; [|apply IH].
  destruct (step st t) as [[t' st']|] eqn:Hs; [|apply IH].
  etrans; [by eapply step_services|apply IH].
Qed.

(** ** Goroutines: all of them get the value of the one run *)

Lemma singleton_pool_step t st t' st' :
  step st t = Some (t', st') -> pool_step 0 [t] st = Some ([t'], st').
Proof. intros H. unfold pool_step. simpl. by rewrite H. Qed.

(** A Once that is done stays done along the steps of a goroutine. *)
Lemma steps_done_stable o a b :
  steps a b ->
  once_inv o [a.1] a.2 -> lazyBind (env_at o a.2) = OnceDone ->
  lazyBind (env_at o b.2) = OnceDone.
Proof.
  induction 1 as [ts|t st t' st' ts'' Hs _ IH]; [done|]. simpl.
  intros Hinv Hd.
  destruct (pool_step_once o 0 [t] [t'] st st'
              (singleton_pool_step _ _ _ _ Hs) Hinv)
    as [Hinv' [(_ & Hf & _)|[(_ & Hr & _)|(_ & He)]]]; try congruence.
  apply IH; [done|]. simpl. by rewrite He.
Qed.

(** The goroutine that runs the factory keeps the Once running as long as
    it is on its way to a state where it is running. *)
Lemma step_running_kept o t st t2 st2 b :
  step st t = Some (t2, st2) ->
  once_inv o [t] st -> lazyBind (env_at o st) = OnceRunning ->
  steps (t2, st2) b -> lazyBind (env_at o b.2) = OnceRunning ->
  once_inv o [t2] st2 /\ lazyBind (env_at o st2) = OnceRunning.
Proof.
  intros Hs Hinv Hr Hsteps Hend.
  destruct (pool_step_once o 0 [t] [t2] st st2
              (singleton_pool_step _ _ _ _ Hs) Hinv)
    as [Hinv' [(_ & Hf & _)|[(_ & _ & Hd)|(_ & He)]]].
  - congruence.
  - pose proof (steps_done_stable o _ _ Hsteps Hinv' Hd) as H. congruence.
  - split; [done|]. by rewrite He.
Qed.

Lemma run_schedule_app s1 s2 (P : Pool) st :
  run_schedule (s1 ++ s2) P st
  = run_schedule s2 (run_schedule s1 P st).1 (run_schedule s1 P st).2.
Proof.
  revert P st. induction s1 as [|i s1 IH]; intros P st; simpl; [done|].
  destruct (pool_step i P st) as [[P' st']|]; apply IH.
Qed.

Lemma run_schedule_length sched (P : Pool) st :
  length (run_schedule sched P st).1 = length P.
Proof.
  revert P st. induction sched as [|i sched IH]; intros P st; simpl; [done|].
  unfold pool_step. destruct (P !! i) as [t|]; [|apply IH].
  destruct (step st t) as [[t' st']|]; [|apply IH].
  rewrite IH. apply length_insert.
Qed.

(** The steps of one goroutine, as a schedule of the program it is in. *)
Lemma steps_schedule a b :
  steps a b ->
  forall (P : Pool) i, P !! i = Some a.1 ->
    exists sched, run_schedule sched P a.2 = (<[i := b.1]> P, b.2).
Proof.
  induction 1 as [ts|t st t' st' ts'' Hs _ IH]; intros P i Hi; simpl in *.
  - exists []. simpl. by rewrite list_insert_id.
  - destruct (IH (<[i := t']> P) i) as [sched Hsched].
    { simpl. apply list_lookup_insert_eq. by eapply lookup_lt_Some. }
    exists (i :: sched). simpl. unfold pool_step. rewrite Hi, Hs.
    rewrite Hsched. by rewrite list_insert_insert_eq.
Qed.

Section ClientsOfASingleton.
Variables (N : string) (o : nat) (c : Code) (v : any) (sa st' : State).
Hypothesis Hsa : services sa !! N = Some (OnceFn o c).
Hypothesis Hlt : o < length (envs sa).
Hypothesis Hfresh : lazyBind (env_at o sa) = OnceFresh.
Hypothesis Hpath :
  steps ((c, [FOnce o; FCall (fun v _ => Ret v)]),
         set_lazyBind o OnceRunning sa)
        ((Ret v, [FOnce o; FCall (fun v _ => Ret v)]), st').
Hypothesis Hrun : lazyBind (env_at o st') = OnceRunning.
Hypothesis Hlt' : o < length (envs st').
Hypothesis Hs' : services st' !! N = Some (OnceFn o c).

Lemma done_state_env :
  env_at o (set_lazyBind o OnceDone (store_result o v st')) = mkEnv OnceDone v.
Proof.
  unfold set_lazyBind, store_result, env_at. simpl.
  by rewrite !list_lookup_insert_eq by (rewrite ?length_insert; lia).
Qed.

Lemma done_state_step k fs :
  step (set_lazyBind o OnceDone (store_result o v st')) (CallResolver N k, fs)
  = Some ((k v None, fs), set_lazyBind o OnceDone (store_result o v st')).
Proof.
  rewrite (step_resolve_done _ N o c); [by rewrite done_state_env|exact Hs'|].
  by rewrite done_state_env.
Qed.

Lemma clients_step j (P P' : Pool) st st2 :
  pool_step j P st = Some (P', st2) ->
  clients_inv N o c v sa st' P st -> clients_inv N o c v sa st' P' st2.
Proof.
  unfold pool_step. intros Hp Hinv.
  destruct (P !! j) as [t|] eqn:Ht; [|done].
  assert (Hj : j < length P) by (by eapply lookup_lt_Some).
  destruct (step st t) as [[t2 s2]|] eqn:Hst; [|done].
  inversion Hp; subst P' st2; clear Hp.
  destruct Hinv
    as [[-> Hall]|[(i & tr & Hi & Hoth & Hsteps & Hinv & Hr & Hs)|[-> Hall]]].
  - rewrite (Hall j t Ht) in Hst. simpl in Hst. rewrite Hsa, Hfresh in Hst.
    inversion Hst; subst t2 s2. right; left.
    exists j, (c, [FOnce o; FCall (fun v _ => Ret v)]). split_and!.
    + by apply list_lookup_insert_eq.
    + intros j' t' Hne H. rewrite list_lookup_insert_ne in H by done. eauto.
    + exact Hpath.
    + split; [by rewrite set_lazyBind_length|].
      rewrite set_lazyBind_same by done.
      unfold frames_in. simpl. rewrite !frames_of_cons. simpl.
      by rewrite bool_decide_eq_true_2.
    + by apply set_lazyBind_same.
    + exact Hsa.
  - destruct (decide (j = i)) as [->|Hne].
    + rewrite Hi in Ht. inversion Ht; subst tr.
      inversion Hsteps as [ts Heq|ta sta tb stb ts'' Hstep Hrest]; subst.
      * simpl in Hst. inversion Hst; subst t2 s2. right; right.
        split; [done|]. intros j' t' H.
        destruct (decide (j' = i)) as [->|Hn].
        -- rewrite list_lookup_insert_eq in H by done. inversion H.
           right; left. by rewrite done_state_env.
        -- rewrite list_lookup_insert_ne in H by done. left. eauto.
      * rewrite Hstep in Hst. inversion Hst; subst tb stb.
        destruct (step_running_kept o _ _ _ _ _ Hstep Hinv Hr Hrest Hrun)
          as [Hinv2 Hr2].
        right; left. exists i, t2. split_and!; try done.
        -- by apply list_lookup_insert_eq.
        -- intros j' t' Hn H. rewrite list_lookup_insert_ne in H by done.
           eauto.
        -- eapply lookup_weaken; [exact Hs|by eapply step_services].
    + rewrite (Hoth j t Hne Ht) in Hst. simpl in Hst.
      rewrite Hs, Hr in Hst. done.
  - assert (Hstay : s2 = set_lazyBind o OnceDone (store_result o v st') /\
                    (t2 = (Ret v, [])) ).
    { destruct (Hall j t Ht) as [-> | [-> | ->]].
      - unfold client, forward in Hst. rewrite done_state_step in Hst.
        by inversion Hst.
      - simpl in Hst. by inversion Hst.
      - simpl in Hst. done. }
    destruct Hstay as [-> ->]. right; right. split; [done|].
    intros j' t' H. destruct (decide (j' = j)) as [->|Hn].
    + rewrite list_lookup_insert_eq in H by done. inversion H. by right; right.
    + rewrite list_lookup_insert_ne in H by done. eauto.
Qed.

Lemma clients_schedule sched (P : Pool) st :
  clients_inv N o c v sa st' P st ->
  clients_inv N o c v sa st' (run_schedule sched P st).1
                             (run_schedule sched P st).2.
Proof.
  revert P st. induction sched as [|i sched IH]; intros P st H; simpl; [done|].
  destruct (pool_step i P st) as [[P' st2]|] eqn:Hp; [|by apply IH].
  apply IH. by eapply clients_step.
Qed.

(** A goroutine that has returned holds [v], and the state is the one the
    one run left. *)
Lemma clients_finished (P : Pool) st i x :
  clients_inv N o c v sa st' P st ->
  P !! i = Some (Ret x, []) ->
  x = v /\ st = set_lazyBind o OnceDone (store_result o v st').
Proof.
  intros [[-> Hall]|[(r & tr & Hr & Hoth & Hsteps & _)|[-> Hall]]] Hi.
  - by specialize (Hall i _ Hi).
  - destruct (decide (i = r)) as [E|Hne].
    + subst i. assert (E : tr = (Ret x, []))
        by (apply (inj Some); rewrite <- Hr; exact Hi).
      subst tr.
      inversion Hsteps as [|ta sta tb stb ts'' Hstep _]; subst. simpl in Hstep.
      done.
    + by specialize (Hoth i _ Hne Hi).
  - destruct (Hall i _ Hi) as [H|[H|H]]; by inversion H.
Qed.
(** Once the Once is done, the goroutines can all be brought to return. *)
Lemma settle_all (suf : Pool) :
  forall pre : Pool,
    (forall t, t ∈ suf ->
       t = client N \/ t = (Ret v, [FCall (fun v _ => Ret v)]) \/
       t = (Ret v, [])) ->
    exists sched,
      run_schedule sched (pre ++ suf)
        (set_lazyBind o OnceDone (store_result o v st'))
      = ((pre ++ replicate (length suf) (Ret v, []))%list,
         set_lazyBind o OnceDone (store_result o v st')).
Proof.
  induction suf as [|t suf IH]; intros pre Hall.
  - exists []. done.
  - destruct (IH (pre ++ [(Ret v, [])])%list) as [sched Hsched].
    { intros t' Ht'. apply Hall. by right. }
    rewrite <- !app_assoc in Hsched. simpl in Hsched.
    assert (Hi : (pre ++ t :: suf)%list !! length pre = Some t)
      by (by apply list_lookup_middle).
    assert (Hins : <[length pre := (Ret v, []) : Thread]> (pre ++ t :: suf)%list
                   = (pre ++ (Ret v, []) :: suf)%list).
    { rewrite insert_app_r_alt by lia. by rewrite Nat.sub_diag. }
    destruct (Hall t) as [-> | [-> | ->]]; [by left| | |].
    + assert (Hst : step (set_lazyBind o OnceDone (store_result o v st'))
                      (client N)
                    = Some ((Ret v, []),
                            set_lazyBind o OnceDone (store_result o v st')))
        by apply done_state_step.
      exists (length pre :: sched). simpl. unfold pool_step.
      rewrite Hi, Hst. by rewrite Hins.
    + assert (Hst : step (set_lazyBind o OnceDone (store_result o v st'))
                      (Ret v, [FCall (fun v _ => Ret v)])
                    = Some ((Ret v, []),
                            set_lazyBind o OnceDone (store_result o v st')))
        by reflexivity.
      exists (length pre :: sched). simpl. unfold pool_step.
      rewrite Hi, Hst. by rewrite Hins.
    + exists sched. exact Hsched.
Qed.

Lemma clients_done (P : Pool) st :
  clients_inv N o c v sa st' P st ->
  lazyBind (env_at o st) = OnceDone ->
  st = set_lazyBind o OnceDone (store_result o v st') /\
  forall t, t ∈ P ->
    t = client N \/ t = (Ret v, [FCall (fun v _ => Ret v)]) \/ t = (Ret v, []).
Proof.
  intros [[-> Hall]|[(r & tr & _ & _ & _ & _ & Hr & _)|[-> Hall]]] Hd;
    [congruence|congruence|].
  split; [done|]. intros t Ht. apply list_elem_of_lookup in Ht as [j Hj].
  by apply (Hall j).
Qed.

Lemma clients_can_finish_started (P : Pool) st :
  clients_inv N o c v sa st' P st ->
  lazyBind (env_at o st) <> OnceFresh ->
  exists sched,
    (run_schedule sched P st).1 = replicate (length P) (Ret v, []).
Proof.
  intros Hinv Hnf.
  destruct Hinv
    as [[-> Hall]|[(r & tr & Hr & Hoth & Hsteps & Hi & Hrn & Hs)|[-> Hall]]] eqn:E.
  - done.
  - destruct (steps_schedule _ _ Hsteps P r Hr) as [s1 H1]. simpl in H1.
    pose proof (clients_schedule (s1 ++ [r]) P st Hinv) as Hinv2.
    assert (H2 : run_schedule (s1 ++ [r]) P st
                 = (<[r := (Ret v, [FCall (fun v _ => Ret v)])]> P,
                    set_lazyBind o OnceDone (store_result o v st'))).
    { rewrite run_schedule_app, H1. simpl. unfold pool_step.
      rewrite list_lookup_insert_eq by (by eapply lookup_lt_Some). simpl.
      rewrite done_state_env. simpl. by rewrite list_insert_insert_eq. }
    rewrite H2 in Hinv2. simpl in Hinv2.
    destruct (clients_done _ _ Hinv2) as [_ Hall2];
      [by rewrite done_state_env|].
    destruct (settle_all _ [] Hall2) as [s2 H3]. simpl in H3.
    exists ((s1 ++ [r]) ++ s2)%list. rewrite run_schedule_app, H2. simpl.
    rewrite H3. simpl. by rewrite length_insert.
  - destruct (settle_all P []) as [s2 H3].
    { intros t Ht. apply list_elem_of_lookup in Ht as [j Hj]. by apply (Hall j). }
    exists s2. simpl in H3. by rewrite H3.
Qed.

(** Whatever has been scheduled so far, the goroutines can all be brought
    to return, and they return [v]. *)
Lemma clients_can_finish (P : Pool) st :
  clients_inv N o c v sa st' P st ->
  exists sched,
    (run_schedule sched P st).1 = replicate (length P) (Ret v, []).
Proof.
  intros Hinv. destruct (decide (lazyBind (env_at o st) = OnceFresh)) as [Hf|Hnf];
    [|by apply clients_can_finish_started].
  destruct Hinv as [[-> Hall]|[(r & tr & _ & _ & _ & _ & Hr & _)|[-> Hall]]];
    [|congruence|by rewrite done_state_env in Hf].
  destruct P as [|t P]; [by exists []|].
  assert (Ht : t = client N) by (by apply (Hall 0)). subst t.
  assert (Hp : pool_step 0 (client N :: P) sa
               = Some ((c, [FOnce o; FCall (fun v _ => Ret v)]) :: P,
                       set_lazyBind o OnceRunning sa)).
  { unfold pool_step. simpl. by rewrite Hsa, Hfresh. }
  assert (Hinv : clients_inv N o c v sa st' (client N :: P) sa)
    by (left; done).
  pose proof (clients_step _ _ _ _ _ Hp Hinv) as Hinv2.
  destruct (clients_can_finish_started _ _ Hinv2) as [s2 H2].
  { rewrite set_lazyBind_same by done. done. }
  exists (0 :: s2). simpl. rewrite Hp. exact H2.
Qed.

End ClientsOfASingleton.

(** C2. Let [N] be bound by a successful [BindSingleton(N, c)], and let it
    be resolved for the first time (in whatever state [sa] the calls since
    then have left, the Once of the binding still fresh) with a factory body
    [c] whose run returns [v].  Then that resolution returns [v] with a nil
    error, having run [c] once; and from then on, in whatever state later
    calls have left the program, every resolution of [N] returns that same
    [v] and leaves the state exactly as it found it: [c] is not run again,
    however often [N] is resolved.  With goroutines: whatever program of
    goroutines runs from [sa], under whatever schedule, [c] is started at
    most once, and exactly once when the Once is no longer fresh at the end;
    and once the Once is done, under every further schedule [result] keeps
    its value and a goroutine that resolves [N] goes on with that value,
    changing nothing.  And the value is [v]: a goroutine that resolves [N]
    gets, step by step, to return [v], in the state that one run left with
    [v] stored; a goroutine that resolves [N] there goes on with [v]; and of
    any number of goroutines that resolve [N] at the same time, under every
    schedule, each one that has returned has returned [v], the state being
    that of the one run, and the others can still all be brought to return
    [v]: those that arrive while the factory runs wait, and none is left
    waiting.  (The last part says it of every state, reached in whatever
    way, in which the binding and the cached [v] are as that run left
    them.) *)
Theorem BindSingleton_runs_factory_once (st0 st sa st' : State) (N : string)
    (c : Code) (n : nat) (v : any) :
  BindSingleton N c st0 = Ok None st ->
  extends st sa ->
  lazyBind (env_at (length (envs st0)) sa) = OnceFresh ->
  exec (Resolver n) c (set_lazyBind (length (envs st0)) OnceRunning sa)
    = Ok v st' ->
  let st1 := set_lazyBind (length (envs st0)) OnceDone
               (store_result (length (envs st0)) v st') in
  Resolver (S n) N sa = Ok (v, None) st1 /\
  (forall st2 m, extends st1 st2 -> Resolver (S m) N st2 = Ok (v, None) st2) /\
  (forall m k, resolve_times (S m) k N st1 = Ok (replicate k v) st1) /\
  (forall (P : Pool) sched sched',
     frames_in (length (envs st0)) P = 0 ->
     count_starts (length (envs st0)) sched P sa <= 1 /\
     (lazyBind (env_at (length (envs st0)) (run_schedule sched P sa).2)
        <> OnceFresh ->
      count_starts (length (envs st0)) sched P sa = 1) /\
     (lazyBind (env_at (length (envs st0)) (run_schedule sched P sa).2)
        = OnceDone ->
      let s' := (run_schedule sched P sa).2 in
      let s'' := (run_schedule sched' (run_schedule sched P sa).1 s').2 in
      env_at (length (envs st0)) s'' = env_at (length (envs st0)) s' /\
      forall k fs,
        step s'' (CallResolver N k, fs)
        = Some ((k (result (env_at (length (envs st0)) s')) None, fs), s''))) /\
  steps (client N, sa) ((Ret v, []), st1) /\
  (forall k fs,
     step st1 (CallResolver N k, fs) = Some ((k v None, fs), st1)) /\
  (forall (k : nat) sched i x,
     (run_schedule sched (replicate k (client N)) sa).1 !! i
       = Some (Ret x, []) ->
     x = v /\ (run_schedule sched (replicate k (client N)) sa).2 = st1) /\
  (forall (k : nat) sched,
     exists sched',
       (run_schedule (sched ++ sched') (replicate k (client N)) sa).1
       = replicate k (Ret v, [])) /\
  (forall st2 m,
     services st2 !! N = Some (OnceFn (length (envs st0)) c) ->
     envs st2 !! length (envs st0) = Some (mkEnv OnceDone v) ->
     Resolver (S m) N st2 = Ok (v, None) st2).
Proof.
  intros HB Hext Hf Hx. set (o := length (envs st0)) in *. intros st1.
  destruct (BindSingleton_ok _ _ _ _ HB) as [Hs He]. fold o in Hs.
  pose proof (extends_lookup _ _ _ _ Hext Hs) as Hsa.
  assert (Hlt : o < length (envs sa)).
  { destruct Hext as [_ _ _ L _]. rewrite He, length_app in L. simpl in L.
    unfold o. lia. }
  destruct (lookup_lt_is_Some_2 _ _ Hlt) as [e0 He0].
  rewrite (env_at_lookup _ _ _ He0) in Hf.
  destruct (invoke_once_fresh _ _ _ _ _ _ _ He0 Hf (Resolver_preserves n) Hx)
    as [Hi Hdone]. fold st1 in Hi, Hdone.
  assert (HR : Resolver (S n) N sa = Ok (v, None) st1).
  { rewrite (Resolver_bound _ _ _ _ Hsa). unfold mbind at 1, M_bind.
    by rewrite Hi. }
  pose proof (Resolver_preserves (S n) N sa) as P. rewrite HR in P. simpl in P.
  assert (Hlater : forall st2 m, extends st1 st2 ->
            Resolver (S m) N st2 = Ok (v, None) st2).
  { intros st2 m H2. eapply Resolver_once_done.
    - eapply extends_lookup; [exact H2|]. by eapply extends_lookup.
    - by apply (ext_envs _ _ H2 o). }
  assert (Hfresh' : lazyBind (env_at o sa) = OnceFresh)
    by (by rewrite (env_at_lookup _ _ _ He0)).
  pose proof (exec_preserves _ (Resolver_preserves n) c
                (set_lazyBind o OnceRunning sa)) as Px.
  rewrite Hx in Px. simpl in Px.
  assert (Hlt' : o < length (envs st')).
  { destruct Px as [_ _ _ L _]. rewrite set_lazyBind_length in L. lia. }
  assert (Hrun : lazyBind (env_at o st') = OnceRunning).
  { rewrite (env_at_lookup o st' (mkEnv OnceRunning (result e0))); [done|].
    apply (ext_envs _ _ Px o); [|done]. unfold set_lazyBind. simpl.
    rewrite (env_at_lookup _ _ _ He0). by apply list_lookup_insert_eq. }
  assert (Hs1' : services st' !! N = Some (OnceFn o c))
    by (by apply (extends_lookup _ _ _ _ Px)).
  assert (Hpath : steps ((c, [FOnce o; FCall (fun v _ => Ret v)]),
                         set_lazyBind o OnceRunning sa)
                        ((Ret v, [FOnce o; FCall (fun v _ => Ret v)]), st')).
  { pose proof (exec_reaches _ c (Resolver_tracked n)
                  [FOnce o; FCall (fun v _ => Ret v)]
                  (set_lazyBind o OnceRunning sa)) as Hre.
    by rewrite Hx in Hre. }
  split_and!; try done.
  - intros m k. by apply resolve_times_const, Hlater.
  - intros G sched sched' Hfr.
    rewrite <- (env_at_lookup _ _ _ He0) in Hf.
    destruct (singleton_once_under_every_schedule o sched sched' G sa Hlt Hf Hfr)
      as (H1 & H2 & H3).
    split; [done|]. split; [done|]. intros Hd. destruct (H3 Hd) as [H4 _]. simpl.
    split; [done|]. intros k fs. rewrite <- H4.
    apply (step_resolve_done _ N o c).
    + eapply lookup_weaken; [|apply run_schedule_services].
      eapply lookup_weaken; [exact Hsa|apply run_schedule_services].
    + by rewrite H4.
  - by apply (client_reaches (S n) N sa v None st1).
  - intros k fs. by apply (done_state_step N o c v st').
  - intros k sched i x Hfin.
    eapply (clients_finished N o c v sa st'); [done..| |exact Hfin].
    apply (clients_schedule N o c v sa st'); try done.
    left. split; [done|]. intros j t H. by apply lookup_replicate in H as [-> _].
  - intros k sched.
    assert (Hinv : clients_inv N o c v sa st'
                     (run_schedule sched (replicate k (client N)) sa).1
                     (run_schedule sched (replicate k (client N)) sa).2).
    { apply (clients_schedule N o c v sa st'); try done.
      left. split; [done|]. intros j t H.
      by apply lookup_replicate in H as [-> _]. }
    destruct (clients_can_finish N o c v sa st' Hsa Hlt Hfresh' Hpath Hrun
                Hlt' Hs1' _ _ Hinv) as [sched' H'].
    exists sched'. rewrite run_schedule_app, H'.
    by rewrite run_schedule_length, length_replicate.
  - intros st2 m H1 H2. by eapply Resolver_once_done.
Qed.

(** ** The claims at work *)

Lemma Bind_fresh_then_resolved_anew_witness :
  locked NewContainer = false /\
  services NewContainer !! "counter" = None /\
  exists st1,
    Bind "counter" (UserFn (counter 0)) NewContainer = Ok None st1 /\
    services st1 = <["counter" := UserFn (counter 0)]> (services NewContainer) /\
    (forall st2 n, extends st1 st2 ->
       Resolver (S n) "counter" st2
       = (v ← exec (Resolver n) (counter 0); mret (v, None)) st2) /\
    (forall n m r1 st2,
       Resolver (S n) "counter" st1 = Ok r1 st2 ->
       Resolver (S n) "counter" st1
       = (v ← exec (Resolver n) (counter 0); mret (v, None)) st1 /\
       Resolver (S m) "counter" st2
       = (v ← exec (Resolver m) (counter 0); mret (v, None)) st2).
Proof.
  split; [reflexivity|]. split; [reflexivity|].
  apply (Bind_fresh_then_resolved_anew NewContainer "counter" (counter 0));
    reflexivity.
Defined.

(** The counter of the specification: bound with [Bind], the first
    resolution gives 1 and the second 2. *)
Example counter_instanced :
  exists st2 st3,
    Resolver 1 "counter" st_counter = Ok (Int 1, None) st2 /\
    Resolver 1 "counter" st2 = Ok (Int 2, None) st3 /\
    vars st3 !! 0 = Some (Int 2).
Proof. do 2 eexists. split_and!; reflexivity. Qed.

Lemma BindSingleton_runs_factory_once_witness :
  BindSingleton "counter" (counter 0) NewContainer = Ok None st_once /\
  extends st_once st_once /\
  lazyBind (env_at (length (envs NewContainer)) st_once) = OnceFresh /\
  exec (Resolver 0) (counter 0)
    (set_lazyBind (length (envs NewContainer)) OnceRunning st_once)
    = Ok (Int 1) st_counted /\
  let st1 := set_lazyBind (length (envs NewContainer)) OnceDone
               (store_result (length (envs NewContainer)) (Int 1) st_counted) in
  Resolver 1 "counter" st_once = Ok (Int 1, None) st1 /\
  (forall st2 m, extends st1 st2 ->
     Resolver (S m) "counter" st2 = Ok (Int 1, None) st2) /\
  (forall m k,
     resolve_times (S m) k "counter" st1 = Ok (replicate k (Int 1)) st1) /\
  (forall (P : Pool) sched sched',
     frames_in (length (envs NewContainer)) P = 0 ->
     count_starts (length (envs NewContainer)) sched P st_once <= 1 /\
     (lazyBind (env_at (length (envs NewContainer))
                 (run_schedule sched P st_once).2) <> OnceFresh ->
      count_starts (length (envs NewContainer)) sched P st_once = 1) /\
     (lazyBind (env_at (length (envs NewContainer))
                 (run_schedule sched P st_once).2) = OnceDone ->
      let s' := (run_schedule sched P st_once).2 in
      let s'' := (run_schedule sched' (run_schedule sched P st_once).1 s').2 in
      env_at (length (envs NewContainer)) s''
      = env_at (length (envs NewContainer)) s' /\
      forall k fs,
        step s'' (CallResolver "counter" k, fs)
        = Some ((k (result (env_at (length (envs NewContainer)) s')) None, fs),
                s''))) /\
  steps (client "counter", st_once) ((Ret (Int 1), []), st1) /\
  (forall k fs,
     step st1 (CallResolver "counter" k, fs)
     = Some ((k (Int 1) None, fs), st1)) /\
  (forall (k : nat) sched i x,
     (run_schedule sched (replicate k (client "counter")) st_once).1 !! i
       = Some (Ret x, []) ->
     x = Int 1 /\
     (run_schedule sched (replicate k (client "counter")) st_once).2 = st1) /\
  (forall (k : nat) sched,
     exists sched',
       (run_schedule (sched ++ sched') (replicate k (client "counter"))
          st_once).1
       = replicate k (Ret (Int 1), [])) /\
  (forall st2 m,
     services st2 !! "counter"
       = Some (OnceFn (length (envs NewContainer)) (counter 0)) ->
     envs st2 !! length (envs NewContainer) = Some (mkEnv OnceDone (Int 1)) ->
     Resolver (S m) "counter" st2 = Ok (Int 1, None) st2).
Proof.
  assert (H1 : BindSingleton "counter" (counter 0) NewContainer = Ok None st_once)
    by reflexivity.
  assert (H2 : extends st_once st_once) by reflexivity.
  assert (H3 : lazyBind (env_at (length (envs NewContainer)) st_once) = OnceFresh)
    by reflexivity.
  assert (H4 : exec (Resolver 0) (counter 0)
                 (set_lazyBind (length (envs NewContainer)) OnceRunning st_once)
               = Ok (Int 1) st_counted)
    by reflexivity.
  split_and!; try assumption.
  apply (BindSingleton_runs_factory_once NewContainer st_once st_once
           st_counted "counter" (counter 0) 0 (Int 1) H1 H2 H3 H4).
Defined.

(** The counter of the specification, bound with [BindSingleton]: a hundred
    resolutions all give 1, and the counter stands at 1. *)
Example counter_singleton :
  value_of (resolve_times 1 100 "counter" st_once)
    = Some (replicate 100 (Int 1)) /\
  vars (run (resolve_times 1 100 "counter") st_once) !! 0 = Some (Int 1).
Proof. split; vm_compute; reflexivity. Qed.

Lemma Bind_taken_rejected_witness :
  locked st_counter = false /\
  services st_counter !! "counter" = Some (UserFn (counter 0)) /\
  Bind "counter" (UserFn (Ret Nil)) st_counter
    = Ok (Some (errAlreadyBound "counter")) st_counter /\
  (exists st', BindSingleton "counter" (Ret Nil) st_counter
                 = Ok (Some (errAlreadyBound "counter")) st' /\
     services st' = services st_counter /\ locked st' = locked st_counter /\
     vars st' = vars st_counter /\ extends st_counter st') /\
  (forall st2 n, extends st_counter st2 ->
     services st2 !! "counter" = Some (UserFn (counter 0)) /\
     Resolver (S n) "counter" st2
     = (v ← invoke (UserFn (counter 0)) (Resolver n); mret (v, None)) st2).
Proof.
  split; [reflexivity|]. split; [reflexivity|].
  apply (Bind_taken_rejected st_counter "counter" (UserFn (counter 0))
           (UserFn (Ret Nil)) (Ret Nil)); reflexivity.
Defined.

Lemma Bind_after_Lock_rejected_witness :
  Lock st_counter = Ok tt (run Lock st_counter) /\
  extends (run Lock st_counter) (run Lock st_counter) /\
  Bind "bar" (UserFn (Ret Nil)) (run Lock st_counter)
    = Ok (Some errLocked) (run Lock st_counter) /\
  exists st', BindSingleton "bar" (Ret Nil) (run Lock st_counter)
                = Ok (Some errLocked) st' /\
    services st' = services (run Lock st_counter) /\ locked st' = true.
Proof.
  split; [reflexivity|]. split; [reflexivity|].
  apply (Bind_after_Lock_rejected st_counter (run Lock st_counter)
           (run Lock st_counter) "bar" (UserFn (Ret Nil)) (Ret Nil));
    reflexivity.
Defined.

Lemma locked_is_final_witness :
  locked (run Lock st_counter) = true /\
  post (fun st' => locked st' = true /\
                   services st' = services (run Lock st_counter))
       (perform_all 2
          [DoBind "bar" (Ret Nil); DoBindSingleton "baz" (Ret Nil);
           DoResolver "counter"; DoLock; DoMustResolve TInt "counter";
           DoMustBind "counter" (Ret Nil)]
          (run Lock st_counter)).
Proof.
  split; [reflexivity|].
  apply (proj2 (locked_is_final (run Lock st_counter))). reflexivity.
Defined.

Lemma Resolver_unbound_NotFound_witness :
  services st_counter !! "foobar" = None /\
  Resolver 0 "foobar" st_counter
    = Ok (Nil, Some (errNotFound "foobar")) st_counter.
Proof.
  split; [reflexivity|].
  apply (Resolver_unbound_NotFound 0 "foobar" st_counter). reflexivity.
Defined.

Lemma Resolve_contract_witness :
  Resolver 1 "bar" st_foobar = Ok (Int 2, None) st_foobar /\
  matches TInt (Int 2) = true /\
  exists v, box TInt v = Int 2 /\
    Resolve TInt "bar" (Resolver 1) st_foobar = Ok (v, None) st_foobar.
Proof.
  split; [reflexivity|]. split; [reflexivity|].
  apply (proj2 (proj2 (Resolve_contract TInt "bar" (Resolver 1) st_foobar)));
    reflexivity.
Defined.

Lemma Resolve_mismatch_zero_witness :
  Resolver 1 "bar" st_foobar = Ok (Int 2, None) st_foobar /\
  matches TString (Int 2) = false /\
  Resolve TString "bar" (Resolver 1) st_foobar
    = Ok (zero TString, Some (errTypeMismatch "bar")) st_foobar.
Proof.
  split; [reflexivity|]. split; [reflexivity|].
  apply (Resolve_mismatch_zero TString "bar" (Resolver 1) st_foobar st_foobar
           (Int 2)); reflexivity.
Defined.

(** [TestResolve]. *)
Example test_Resolve :
  Resolve TInt "foo" (Resolver 1) st_foobar = Ok (1%Z, None) st_foobar /\
  Resolve TString "bar" (Resolver 1) st_foobar
    = Ok ("", Some "Unable to convert bar to the requested type") st_foobar /\
  Resolve TInt "bar" (Resolver 1) st_foobar = Ok (2%Z, None) st_foobar /\
  Resolve TInt "baz" (Resolver 1) st_foobar
    = Ok (0%Z, Some "baz service not found in container") st_foobar.
Proof. split_and!; reflexivity. Qed.

(** [TestMustResolve]. *)
Example test_MustResolve :
  MustResolve TInt "test" (Resolver 1) NewContainer
  = Panicked (Err "test service not found in container") NewContainer.
Proof. reflexivity. Qed.

(** A value of the nil interface satisfies no type, not even [any]. *)
Example Resolve_nil_any :
  Resolve TAny "n" (Resolver 1) (run (Bind "n" (UserFn (Ret Nil))) NewContainer)
  = Ok (Nil, Some (errTypeMismatch "n"))
       (run (Bind "n" (UserFn (Ret Nil))) NewContainer).
Proof. reflexivity. Qed.

(** C8 as stated fails: when the factory panics, [MustResolve] raises a
    fault although [Resolve] returns no error; it does not return. *)
Lemma MustResolve_fault_without_error :
  MustResolve TInt "boom" (Resolver 1) st_boom = Panicked (Str "boom") st_boom /\
  Resolve TInt "boom" (Resolver 1) st_boom = Panicked (Str "boom") st_boom /\
  ~ (exists v e st', Resolve TInt "boom" (Resolver 1) st_boom = Ok (v, Some e) st').
Proof.
  assert (H : Resolve TInt "boom" (Resolver 1) st_boom
              = Panicked (Str "boom") st_boom) by reflexivity.
  split_and!; [reflexivity|exact H|].
  intros (v & e & st' & H'). rewrite H in H'. discriminate.
Qed.

(** A factory built from a sibling: resolving ["b"] runs the counter. *)
Example sibling_resolution :
  value_of (Resolver 2 "b" st_sibling) = Some (Int 1, None) /\
  value_of (Resolver 2 "counter" st_sibling) = Some (Int 1, None) /\
  Resolver 1 "b" st_sibling = OutOfFuel.
Proof. split_and!; vm_compute; reflexivity. Qed.

(** A singleton factory that panics has used up its Once: the next
    resolution, by a client that recovered, returns the nil [result] and does
    not run the factory again. *)
Example panicking_singleton :
  exists st1,
    Resolver 1 "boom" st_boom_once = Panicked (Str "boom") st1 /\
    vars st1 !! 0 = Some (Int 1) /\
    Resolver 1 "boom" st1 = Ok (Nil, None) st1.
Proof. eexists. split_and!; reflexivity. Qed.

(** A singleton factory that resolves its own name waits for itself. *)
Example self_singleton_deadlock n :
  Resolver (S (S n)) "self" st_self_once = Deadlock.
Proof. reflexivity. Qed.

(** An instanced factory that resolves its own name never returns. *)
Example self_instanced_diverges n : Resolver n "self" st_self = OutOfFuel.
Proof.
  induction n as [|n IH]; [reflexivity|].
  rewrite (Resolver_bound n "self" st_self (UserFn (forward "self")))
    by reflexivity.
  simpl. unfold mbind, M_bind. by rewrite IH.
Qed.

(** Three goroutines resolve the singleton counter at the same time: the
    second and the third wait while the first runs the factory; all three
    get 1, the factory was started once and the counter stands at 1. *)
Example goroutines_singleton :
  (run_schedule in_turns three_clients st_once).1
    = [(Ret (Int 1), []); (Ret (Int 1), []); (Ret (Int 1), [])] /\
  vars (run_schedule in_turns three_clients st_once).2 !! 0 = Some (Int 1) /\
  count_starts 0 in_turns three_clients st_once = 1.
Proof. split_and!; vm_compute; reflexivity. Qed.

(** The same three goroutines on the instanced counter: each runs the
    factory. *)
Example goroutines_instanced :
  vars (run_schedule [0; 0; 0; 0; 0; 1; 1; 1; 1; 1; 2; 2; 2; 2; 2]
          three_clients st_counter).2 !! 0 = Some (Int 3).
Proof. vm_compute. reflexivity. Qed.

(** * More of the package *)

(** ** Binding a list of names *)

Lemma bind_names_fresh names handler :
  forall st,
    locked st = false ->
    NoDup names ->
    (forall n, n ∈ names -> services st !! n = None) ->
    exists st',
      bind_names names handler st = Ok (replicate (length names) None) st' /\
      locked st' = false /\
      envs st' = envs st /\ vars st' = vars st /\
      (forall n, n ∈ names -> services st' !! n = Some handler) /\
      (forall n, n ∉ names -> services st' !! n = services st !! n).
Proof.
  induction names as [|a names IH]; intros st Hl Hnd Hfree; simpl.
  - exists st. split_and!; try done. intros n Hn. by apply elem_of_nil in Hn.
  - apply NoDup_cons in Hnd as [Ha Hnd].
    unfold mbind at 1, M_bind.
    rewrite (Bind_free a handler st Hl) by (apply Hfree; left).
    set (st1 := set_services (<[a := handler]> (services st)) st).
    destruct (IH st1) as (st' & Hb & Hl' & He & Hv & Hin & Hout); try done.
    { intros n Hn. simpl. rewrite lookup_insert_ne; [apply Hfree; by right|].
      intros ->. done. }
    exists st'. unfold mbind, M_bind. rewrite Hb. split_and!; try done.
    + intros n Hn. apply elem_of_cons in Hn as [->|Hn]; [|by apply Hin].
      rewrite (Hout a Ha). simpl. apply lookup_insert_eq.
    + intros n Hn. apply not_elem_of_cons in Hn as [Hne Hn].
      rewrite (Hout n Hn). simpl. by rewrite lookup_insert_ne.
Qed.

(** X1. Binding a duplicate-free list of names, none of them bound, to a
    handler on an unlocked container: every [Bind] returns nil; afterwards
    each of the names is bound to the handler, every other name is bound as
    before, and a further [Bind] of any of the names is rejected and leaves
    the state as it is. *)
Theorem bind_names_all_succeed (names : list string) (handler b2 : BinderFunc)
    (st : State) :
  locked st = false ->
  NoDup names ->
  (forall n, n ∈ names -> services st !! n = None) ->
  exists st',
    bind_names names handler st = Ok (replicate (length names) None) st' /\
    (forall n, n ∈ names -> services st' !! n = Some handler) /\
    (forall n, n ∉ names -> services st' !! n = services st !! n) /\
    (forall n, n ∈ names ->
       Bind n b2 st' = Ok (Some (errAlreadyBound n)) st').
Proof.
  intros Hl Hnd Hfree.
  destruct (bind_names_fresh names handler st Hl Hnd Hfree)
    as (st' & Hb & Hl' & _ & _ & Hin & Hout).
  exists st'. split_and!; try done.
  intros n Hn. eapply Bind_taken; [done|]. by apply Hin.
Qed.

Lemma bind_names_all_succeed_witness :
  locked NewContainer = false /\
  NoDup ["foo"; "bar"; "baz"] /\
  (forall n, n ∈ ["foo"; "bar"; "baz"] -> services NewContainer !! n = None) /\
  exists st',
    bind_names ["foo"; "bar"; "baz"] (UserFn (Ret (Int 12345))) NewContainer
      = Ok (replicate (length ["foo"; "bar"; "baz"]) None) st' /\
    (forall n, n ∈ ["foo"; "bar"; "baz"] ->
       services st' !! n = Some (UserFn (Ret (Int 12345)))) /\
    (forall n, n ∉ ["foo"; "bar"; "baz"] ->
       services st' !! n = services NewContainer !! n) /\
    (forall n, n ∈ ["foo"; "bar"; "baz"] ->
       Bind n (UserFn (Ret (Int 12345))) st'
       = Ok (Some (errAlreadyBound n)) st').
Proof.
  assert (H1 : locked NewContainer = false) by reflexivity.
  assert (H2 : NoDup ["foo"; "bar"; "baz"]) by (apply (bool_decide_unpack _); reflexivity).
  assert (H3 : forall n, n ∈ ["foo"; "bar"; "baz"] ->
                 services NewContainer !! n = None) by (intros; reflexivity).
  split_and!; try assumption.
  apply (bind_names_all_succeed ["foo"; "bar"; "baz"] (UserFn (Ret (Int 12345)))
           (UserFn (Ret (Int 12345))) NewContainer H1 H2 H3).
Defined.

(** ** What the results of resolution tell *)

Lemma invoke_result_shape (m : M any) st v (e : error) st' :
  (x ← m; mret (x, None : error)) st = Ok (v, e) st' -> e = None.
Proof.
  unfold mbind, M_bind. destruct (m st); [|done..]. by inversion 1.
Qed.

(** X2. A resolver of the container returns an error only for a name that
    is not bound: the error is then the not-found error, the value is nil
    and the state is untouched.  A bound name never gives an error: a
    factory has no way to report one. *)
Theorem Resolver_error_only_NotFound (fuel : nat) (N : string) (st st' : State)
    (v : any) (e : string) :
  Resolver fuel N st = Ok (v, Some e) st' ->
  services st !! N = None /\ v = Nil /\ e = errNotFound N /\ st' = st.
Proof.
  destruct (services st !! N) as [b|] eqn:Hs.
  - destruct fuel as [|n]; simpl; rewrite Hs; [done|].
    intros H. by apply invoke_result_shape in H.
  - rewrite (Resolver_unbound _ _ _ Hs). by inversion 1.
Qed.

Lemma Resolver_error_only_NotFound_witness :
  Resolver 1 "baz" st_foobar
    = Ok (Nil, Some "baz service not found in container") st_foobar /\
  services st_foobar !! "baz" = None /\ Nil = Nil /\
  "baz service not found in container" = errNotFound "baz" /\
  st_foobar = st_foobar.
Proof.
  assert (H : Resolver 1 "baz" st_foobar
              = Ok (Nil, Some "baz service not found in container") st_foobar)
    by reflexivity.
  split; [exact H|].
  apply (Resolver_error_only_NotFound 1 "baz" st_foobar st_foobar Nil _ H).
Defined.

(** X3. [Resolve[T]] returns a nil error only when the resolver returned,
    with a nil error, a value whose dynamic type satisfies [T]; what it
    returns is that very value: nothing is converted, and a value of another
    type never comes back as a [T]. *)
Theorem Resolve_success_only_typed (T : GoType) (name : string)
    (R : ResolverFunc) (st st' : State) (x : denote T) :
  Resolve T name R st = Ok (x, None) st' ->
  exists t, R name st = Ok (t, None) st' /\ matches T t = true /\ box T x = t.
Proof.
  rewrite Resolve_unfold.
  destruct (R name st) as [[t [e|]] st1|p st1| |]; try done.
  destruct (matches T t) eqn:Hm; [|done].
  inversion 1; subst. exists t. split_and!; try done.
  apply typeAssert_box. rewrite <- Hm, <- typeAssert_ok.
  by destruct (typeAssert T t).
Qed.

Lemma Resolve_success_only_typed_witness :
  Resolve TInt "foo" (Resolver 1) st_foobar = Ok (1%Z, None) st_foobar /\
  exists t, Resolver 1 "foo" st_foobar = Ok (t, None) st_foobar /\
    matches TInt t = true /\ box TInt 1%Z = t.
Proof.
  assert (H : Resolve TInt "foo" (Resolver 1) st_foobar
              = Ok (1%Z, None) st_foobar) by reflexivity.
  split; [exact H|].
  apply (Resolve_success_only_typed TInt "foo" (Resolver 1) st_foobar st_foobar
           1%Z H).
Defined.

(** X4. [Resolve[T]] on a resolver of the container fails in two ways only:
    with the not-found error, exactly when the name is not bound (the state
    is then untouched), and with the conversion error, when the name is
    bound and its factory returned a value that is not a [T].  Either way
    the [T] it returns is the zero value. *)
Theorem Resolve_container_errors (T : GoType) (fuel : nat) (N : string)
    (st st' : State) (x : denote T) (e : string) :
  Resolve T N (Resolver fuel) st = Ok (x, Some e) st' ->
  x = zero T /\
  ((services st !! N = None /\ e = errNotFound N /\ st' = st) \/
   (is_Some (services st !! N) /\ e = errTypeMismatch N /\
    exists t, Resolver fuel N st = Ok (t, None) st' /\ matches T t = false)).
Proof.
  rewrite Resolve_unfold.
  destruct (Resolver fuel N st) as [[t [e'|]] st1|p st1| |] eqn:HR; try done.
  - destruct (Resolver_error_only_NotFound _ _ _ _ _ _ HR) as (Hs & _ & -> & ->).
    inversion 1; subst. split; [done|]. by left.
  - destruct (matches T t) eqn:Hm; [done|].
    rewrite (typeAssert_zero _ _ Hm). simpl. inversion 1; subst.
    split; [done|]. right. split_and!; [|done|by exists t].
    destruct (services st !! N) eqn:Hs; [done|].
    rewrite (Resolver_unbound _ _ _ Hs) in HR. by inversion HR.
Qed.

Lemma Resolve_container_errors_witness :
  Resolve TString "bar" (Resolver 1) st_foobar
    = Ok ("", Some (errTypeMismatch "bar")) st_foobar /\
  "" = zero TString /\
  ((services st_foobar !! "bar" = None /\
    errTypeMismatch "bar" = errNotFound "bar" /\ st_foobar = st_foobar) \/
   (is_Some (services st_foobar !! "bar") /\
    errTypeMismatch "bar" = errTypeMismatch "bar" /\
    exists t, Resolver 1 "bar" st_foobar = Ok (t, None) st_foobar /\
      matches TString t = false)).
Proof.
  assert (H : Resolve TString "bar" (Resolver 1) st_foobar
              = Ok ("", Some (errTypeMismatch "bar")) st_foobar) by reflexivity.
  split; [exact H|].
  apply (Resolve_container_errors TString 1 "bar" st_foobar st_foobar "" _ H).
Defined.

(** ** From the factory to the typed value *)

Lemma typeAssert_of_box T (x : denote T) :
  box T x <> Nil -> typeAssert T (box T x) = (x, true).
Proof. destruct T; simpl; try done; by destruct x. Qed.

Lemma matches_nil T : matches T Nil = false.
Proof. by destruct T. Qed.

(** X5. From [Bind] to [MustResolve]: on an unlocked container where [N] is
    not bound, [Bind(N, f)] returns nil, and when a run of [f] then returns
    a non-nil value [x] of type [T], [Resolve[T]] gives [(x, nil)] and
    [MustResolve[T]] gives [x], in the state that run left. *)
Theorem Bind_then_MustResolve (T : GoType) (x : denote T) (N : string)
    (f : Code) (n : nat) (st st2 : State) :
  locked st = false ->
  services st !! N = None ->
  box T x <> Nil ->
  exec (Resolver n) f (set_services (<[N := UserFn f]> (services st)) st)
    = Ok (box T x) st2 ->
  let st1 := set_services (<[N := UserFn f]> (services st)) st in
  Bind N (UserFn f) st = Ok None st1 /\
  Resolve T N (Resolver (S n)) st1 = Ok (x, None) st2 /\
  MustResolve T N (Resolver (S n)) st1 = Ok x st2.
Proof.
  intros Hl Hs Hx He st1.
  assert (HR : Resolve T N (Resolver (S n)) st1 = Ok (x, None) st2).
  { assert (Hr : Resolver (S n) N st1 = Ok (box T x, None) st2).
    { rewrite (Resolver_bound n N st1 (UserFn f)) by apply lookup_insert_eq.
      simpl. unfold mbind, M_bind. fold st1 in He. by rewrite He. }
    rewrite Resolve_unfold, Hr, <- typeAssert_ok.
    by rewrite (typeAssert_of_box T x Hx). }
  split_and!; [by apply Bind_free|done|].
  by rewrite MustResolve_unfold, HR.
Qed.

Lemma Bind_then_MustResolve_witness :
  locked NewContainer = false /\
  services NewContainer !! "counter" = None /\
  box TInt 1%Z <> Nil /\
  exec (Resolver 0) (counter 0)
    (set_services (<["counter" := UserFn (counter 0)]> (services NewContainer))
       NewContainer)
    = Ok (box TInt 1%Z) (run (Resolver 1 "counter") st_counter) /\
  let st1 := set_services
               (<["counter" := UserFn (counter 0)]> (services NewContainer))
               NewContainer in
  Bind "counter" (UserFn (counter 0)) NewContainer = Ok None st1 /\
  Resolve TInt "counter" (Resolver 1) st1
    = Ok (1%Z, None) (run (Resolver 1 "counter") st_counter) /\
  MustResolve TInt "counter" (Resolver 1) st1
    = Ok 1%Z (run (Resolver 1 "counter") st_counter).
Proof.
  assert (H1 : locked NewContainer = false) by reflexivity.
  assert (H2 : services NewContainer !! "counter" = None) by reflexivity.
  assert (H3 : box TInt 1%Z <> Nil) by discriminate.
  assert (H4 : exec (Resolver 0) (counter 0)
                 (set_services
                    (<["counter" := UserFn (counter 0)]> (services NewContainer))
                    NewContainer)
               = Ok (box TInt 1%Z) (run (Resolver 1 "counter") st_counter))
    by reflexivity.
  split_and!; try assumption.
  apply (Bind_then_MustResolve TInt 1%Z "counter" (counter 0) 0 NewContainer
           (run (Resolver 1 "counter") st_counter) H1 H2 H3 H4).
Defined.

(** X6. A dependency whose factory returns nil cannot be retrieved through
    the typed helpers at any type, [any] included: [Resolve[T]] returns the
    conversion error with the zero value and [MustResolve[T]] panics with
    that error, although the resolver itself returned [(nil, nil)]. *)
Theorem nil_value_never_typed (T : GoType) (N : string) (b : BinderFunc)
    (n : nat) (st st' : State) :
  services st !! N = Some b ->
  invoke b (Resolver n) st = Ok Nil st' ->
  Resolver (S n) N st = Ok (Nil, None) st' /\
  Resolve T N (Resolver (S n)) st
    = Ok (zero T, Some (errTypeMismatch N)) st' /\
  MustResolve T N (Resolver (S n)) st
    = Panicked (Err (errTypeMismatch N)) st'.
Proof.
  intros Hs Hi.
  assert (HR : Resolver (S n) N st = Ok (Nil, None) st').
  { rewrite (Resolver_bound _ _ _ _ Hs). unfold mbind, M_bind. by rewrite Hi. }
  assert (HT : Resolve T N (Resolver (S n)) st
               = Ok (zero T, Some (errTypeMismatch N)) st').
  { rewrite Resolve_unfold, HR, matches_nil.
    by rewrite (typeAssert_zero T Nil (matches_nil T)). }
  split_and!; try done. by rewrite MustResolve_unfold, HT.
Qed.

Lemma nil_value_never_typed_witness :
  services (run (Bind "n" (UserFn (Ret Nil))) NewContainer) !! "n"
    = Some (UserFn (Ret Nil)) /\
  invoke (UserFn (Ret Nil)) (Resolver 0)
    (run (Bind "n" (UserFn (Ret Nil))) NewContainer)
    = Ok Nil (run (Bind "n" (UserFn (Ret Nil))) NewContainer) /\
  Resolver 1 "n" (run (Bind "n" (UserFn (Ret Nil))) NewContainer)
    = Ok (Nil, None) (run (Bind "n" (UserFn (Ret Nil))) NewContainer) /\
  Resolve TAny "n" (Resolver 1) (run (Bind "n" (UserFn (Ret Nil))) NewContainer)
    = Ok (zero TAny, Some (errTypeMismatch "n"))
         (run (Bind "n" (UserFn (Ret Nil))) NewContainer) /\
  MustResolve TAny "n" (Resolver 1)
    (run (Bind "n" (UserFn (Ret Nil))) NewContainer)
    = Panicked (Err (errTypeMismatch "n"))
        (run (Bind "n" (UserFn (Ret Nil))) NewContainer).
Proof.
  split; [reflexivity|]. split; [reflexivity|].
  apply (nil_value_never_typed TAny "n" (UserFn (Ret Nil)) 0); reflexivity.
Defined.

(** ** Singletons that do not return *)

(** X7. A singleton whose factory panics on its first run has used up its
    Once: the panic passes through the resolution, and from then on, in
    whatever state later calls have left the program, every resolution of
    the name returns [(nil, nil)] without running the factory again, so
    [Resolve[T]] fails with the conversion error at every type. *)
Theorem panicked_singleton_stays_nil (N : string) (o : nat) (c : Code)
    (n : nat) (p : any) (sa st' : State) :
  services sa !! N = Some (OnceFn o c) ->
  envs sa !! o = Some (mkEnv OnceFresh Nil) ->
  exec (Resolver n) c (set_lazyBind o OnceRunning sa) = Panicked p st' ->
  let st1 := set_lazyBind o OnceDone st' in
  Resolver (S n) N sa = Panicked p st1 /\
  (forall st2 m, extends st1 st2 ->
     Resolver (S m) N st2 = Ok (Nil, None) st2) /\
  (forall st2 m T, extends st1 st2 ->
     Resolve T N (Resolver (S m)) st2
     = Ok (zero T, Some (errTypeMismatch N)) st2).
Proof.
  intros Hs He Hx st1.
  assert (Hlt : o < length (envs sa)) by (by eapply lookup_lt_Some).
  pose proof (exec_preserves _ (Resolver_preserves n) c
                (set_lazyBind o OnceRunning sa)) as P.
  rewrite Hx in P. simpl in P.
  assert (H0 : envs (set_lazyBind o OnceRunning sa) !! o
               = Some (mkEnv OnceRunning Nil)).
  { unfold set_lazyBind. simpl. rewrite (env_at_lookup _ _ _ He). simpl.
    by apply list_lookup_insert_eq. }
  assert (H1 : envs st' !! o = Some (mkEnv OnceRunning Nil))
    by (by apply (ext_envs _ _ P o)).
  assert (Hd : envs st1 !! o = Some (mkEnv OnceDone Nil)).
  { unfold st1, set_lazyBind. simpl. rewrite (env_at_lookup _ _ _ H1). simpl.
    apply list_lookup_insert_eq. by eapply lookup_lt_Some. }
  assert (Hs1 : services st1 !! N = Some (OnceFn o c)).
  { unfold st1. simpl. by apply (extends_lookup _ _ _ _ P). }
  assert (HR : Resolver (S n) N sa = Panicked p st1).
  { rewrite (Resolver_bound _ _ _ _ Hs). simpl.
    unfold mbind, M_bind, onceDo. rewrite (env_at_lookup _ _ _ He). simpl.
    unfold mbind, M_bind. by rewrite Hx. }
  assert (Hlater : forall st2 m, extends st1 st2 ->
            Resolver (S m) N st2 = Ok (Nil, None) st2).
  { intros st2 m H2. eapply Resolver_once_done.
    - by eapply extends_lookup.
    - by apply (ext_envs _ _ H2 o). }
  split_and!; try done.
  intros st2 m T H2.
  rewrite Resolve_unfold, (Hlater st2 m H2), matches_nil.
  by rewrite (typeAssert_zero T Nil (matches_nil T)).
Qed.

Lemma panicked_singleton_stays_nil_witness :
  services st_boom_once !! "boom"
    = Some (OnceFn 0 (Store 0 (Int 1) (Panic (Str "boom")))) /\
  envs st_boom_once !! 0 = Some (mkEnv OnceFresh Nil) /\
  exec (Resolver 0) (Store 0 (Int 1) (Panic (Str "boom")))
    (set_lazyBind 0 OnceRunning st_boom_once)
    = Panicked (Str "boom")
        (run (exec (Resolver 0) (Store 0 (Int 1) (Panic (Str "boom"))))
           (set_lazyBind 0 OnceRunning st_boom_once)) /\
  let st1 := set_lazyBind 0 OnceDone
               (run (exec (Resolver 0) (Store 0 (Int 1) (Panic (Str "boom"))))
                  (set_lazyBind 0 OnceRunning st_boom_once)) in
  Resolver 1 "boom" st_boom_once = Panicked (Str "boom") st1 /\
  (forall st2 m, extends st1 st2 ->
     Resolver (S m) "boom" st2 = Ok (Nil, None) st2) /\
  (forall st2 m T, extends st1 st2 ->
     Resolve T "boom" (Resolver (S m)) st2
     = Ok (zero T, Some (errTypeMismatch "boom")) st2).
Proof.
  split; [reflexivity|]. split; [reflexivity|]. split; [reflexivity|].
  apply (panicked_singleton_stays_nil "boom" 0
           (Store 0 (Int 1) (Panic (Str "boom"))) 0 (Str "boom") st_boom_once);
    reflexivity.
Defined.

(** X8. A singleton whose factory resolves its own name never gets its
    value: the inner resolution finds the Once running and waits for the
    mutex that the outer one holds.  No cycle is detected. *)
Theorem self_resolving_singleton_deadlocks (N : string) (o : nat)
    (k : any -> error -> Code) (e0 : SingletonEnv) (n : nat) (st : State) :
  services st !! N = Some (OnceFn o (CallResolver N k)) ->
  envs st !! o = Some e0 ->
  lazyBind e0 = OnceFresh ->
  Resolver (S (S n)) N st = Deadlock.
Proof.
  intros Hs He Hf.
  assert (Hlt : o < length (envs st)) by (by eapply lookup_lt_Some).
  assert (Hin : Resolver (S n) N (set_lazyBind o OnceRunning st) = Deadlock).
  { rewrite (Resolver_bound n N _ (OnceFn o (CallResolver N k))) by exact Hs.
    simpl. unfold mbind, M_bind, onceDo.
    by rewrite (set_lazyBind_same o OnceRunning st Hlt). }
  rewrite (Resolver_bound _ _ _ _ Hs).
  change (invoke (OnceFn o (CallResolver N k)) (Resolver (S n)))
    with (_ ← onceDo o (v ← exec (Resolver (S n)) (CallResolver N k);
                         set_result o v); get_result o).
  unfold mbind at 1 2, M_bind, onceDo.
  rewrite (env_at_lookup _ _ _ He), Hf.
  change (exec (Resolver (S n)) (CallResolver N k))
    with ('(v, err) ← Resolver (S n) N; exec (Resolver (S n)) (k v err)).
  unfold mbind, M_bind. by rewrite Hin.
Qed.

Lemma self_resolving_singleton_deadlocks_witness :
  services st_self_once !! "self"
    = Some (OnceFn 0 (CallResolver "self" (fun v _ => Ret v))) /\
  envs st_self_once !! 0 = Some (mkEnv OnceFresh Nil) /\
  lazyBind (mkEnv OnceFresh Nil) = OnceFresh /\
  Resolver 2 "self" st_self_once = Deadlock.
Proof.
  split; [reflexivity|]. split; [reflexivity|]. split; [reflexivity|].
  apply (self_resolving_singleton_deadlocks "self" 0 (fun v _ => Ret v)
           (mkEnv OnceFresh Nil) 0 st_self_once); reflexivity.
Defined.

(** X9. An instanced binding whose factory resolves its own name never
    returns either: each resolution starts the next, and no budget, however
    large, sees one end. *)
Theorem self_resolving_factory_never_returns (N : string)
    (k : any -> error -> Code) (st : State) (n : nat) :
  services st !! N = Some (UserFn (CallResolver N k)) ->
  Resolver n N st = OutOfFuel.
Proof.
  intros Hs. induction n as [|n IH]; [simpl; by rewrite Hs|].
  rewrite (Resolver_bound _ _ _ _ Hs). simpl. unfold mbind, M_bind.
  by rewrite IH.
Qed.

Lemma self_resolving_factory_never_returns_witness :
  services st_self !! "self"
    = Some (UserFn (CallResolver "self" (fun v _ => Ret v))) /\
  Resolver 1000 "self" st_self = OutOfFuel.
Proof.
  split; [reflexivity|].
  apply (self_resolving_factory_never_returns "self" (fun v _ => Ret v) st_self).
  reflexivity.
Defined.

(** ** The variables of the singleton closures *)

Lemma private_same st st' :
  services st' = services st ->
  length (envs st) <= length (envs st') ->
  closures_private st -> closures_private st'.
Proof.
  intros Hs Hl [H1 H2]. split.
  - intros N o c H. rewrite Hs in H. specialize (H1 N o c H). lia.
  - intros N1 N2 o c1 c2 Ha Hb. rewrite Hs in Ha, Hb. eauto.
Qed.

Lemma private_set_lazyBind o s st :
  closures_private st -> closures_private (set_lazyBind o s st).
Proof.
  apply private_same; [done|]. by rewrite set_lazyBind_length.
Qed.

Lemma private_store_result o v st :
  closures_private st -> closures_private (store_result o v st).
Proof.
  apply private_same; [done|]. by rewrite store_result_length.
Qed.

Lemma Bind_private name body st :
  closures_private st -> post closures_private (Bind name (UserFn body) st).
Proof.
  intros [H1 H2]. unfold Bind. destruct (locked st); [done|].
  destruct (services st !! name) eqn:Hs; [done|]. simpl. split; simpl.
  - intros N o c H. destruct (decide (name = N)) as [->|Hne].
    + by rewrite lookup_insert_eq in H.
    + rewrite lookup_insert_ne in H by done. eauto.
  - intros N1 N2 o c1 c2 Ha Hb.
    destruct (decide (name = N1)) as [E1|Hn1];
      [subst N1; by rewrite lookup_insert_eq in Ha|].
    destruct (decide (name = N2)) as [E2|Hn2];
      [subst N2; by rewrite lookup_insert_eq in Hb|].
    rewrite lookup_insert_ne in Ha, Hb by done. eauto.
Qed.

Lemma BindSingleton_private name c st :
  closures_private st -> post closures_private (BindSingleton name c st).
Proof.
  intros [H1 H2]. rewrite BindSingleton_unfold. unfold Bind. simpl.
  assert (Hold : closures_private
                   (set_envs (envs st ++ [mkEnv OnceFresh Nil]) st)).
  { apply (private_same st); [done| |done]. simpl. rewrite length_app. lia. }
  destruct (locked st); [done|].
  destruct (services st !! name) eqn:Hs; [done|]. simpl. split; simpl.
  - intros N o c' H. rewrite length_app. simpl.
    destruct (decide (name = N)) as [->|Hne].
    + rewrite lookup_insert_eq in H. inversion H. lia.
    + rewrite lookup_insert_ne in H by done. specialize (H1 N o c' H). lia.
  - intros N1 N2 o c1 c2 Ha Hb.
    destruct (decide (name = N1)) as [E1|Hn1];
      destruct (decide (name = N2)) as [E2|Hn2]; [congruence| | |].
    + subst N1. rewrite lookup_insert_eq in Ha.
      rewrite lookup_insert_ne in Hb by done.
      inversion Ha; subst. specialize (H1 N2 _ c2 Hb). lia.
    + subst N2. rewrite lookup_insert_eq in Hb.
      rewrite lookup_insert_ne in Ha by done.
      inversion Hb; subst. specialize (H1 N1 _ c1 Ha). lia.
    + rewrite lookup_insert_ne in Ha, Hb by done. eauto.
Qed.

Lemma bind_private {A B} (m : M A) (f : A -> M B) st :
  post closures_private (m st) ->
  (forall a st', closures_private st' -> post closures_private (f a st')) ->
  post closures_private ((m ≫= f) st).
Proof.
  unfold mbind, M_bind. intros Hm Hf. destruct (m st); simpl in *; auto.
Qed.

Lemma exec_private R c :
  (forall name st, closures_private st -> post closures_private (R name st)) ->
  forall st, closures_private st -> post closures_private (exec R c st).
Proof.
  intros HR.
  induction c as [v|p|x k IH|x v k IH|name k IH|single name b _ k IH|k IH
                 |body IHb k IH]; intros st Hp; simpl; try done.
  - by apply IH.
  - apply IH. by apply (private_same st).
  - apply bind_private; [by apply HR|]. intros [v err] st'. apply IH.
  - apply bind_private; [|intros; by apply IH].
    destruct single; [by apply BindSingleton_private|by apply Bind_private].
  - apply bind_private; [by apply (private_same st)|]. intros _ st'. apply IH.
  - specialize (IHb st Hp).
    destruct (exec R body st); simpl in *; try done; by apply IH.
Qed.

Lemma invoke_private R b :
  (forall name st, closures_private st -> post closures_private (R name st)) ->
  forall st, closures_private st -> post closures_private (invoke b R st).
Proof.
  intros HR st Hp. destruct b as [body|o binder]; simpl;
    [by apply exec_private|].
  unfold mbind, M_bind, onceDo, get_result, set_result.
  destruct (lazyBind (env_at o st)); simpl; try done.
  pose proof (exec_private R binder HR (set_lazyBind o OnceRunning st)
                (private_set_lazyBind _ _ _ Hp)) as H.
  destruct (exec R binder _); simpl in *; try done.
  - by apply private_set_lazyBind, private_store_result.
  - by apply private_set_lazyBind.
Qed.

Lemma Resolver_private fuel name st :
  closures_private st -> post closures_private (Resolver fuel name st).
Proof.
  revert name st. induction fuel as [|n IH]; intros name st Hp; simpl;
    destruct (services st !! name) as [b|]; simpl; try done.
  apply (bind_private (invoke b (Resolver n)) (fun v => mret (v, None))).
  - by apply invoke_private.
  - intros v st' H. exact H.
Qed.

Lemma perform_private fuel c st :
  closures_private st -> post closures_private (perform fuel c st).
Proof.
  intros Hp.
  assert (HB : forall name b, post closures_private (Bind name (UserFn b) st))
    by (intros; by apply Bind_private).
  assert (HS : forall name b, post closures_private (BindSingleton name b st))
    by (intros; by apply BindSingleton_private).
  assert (HR : forall name, post closures_private (Resolver fuel name st))
    by (intros; by apply Resolver_private).
  assert (HT : forall T name,
             post closures_private (Resolve T name (Resolver fuel) st)).
  { intros T name. rewrite Resolve_unfold. specialize (HR name).
    destruct (Resolver fuel name st) as [[t [e|]] st'| | |]; try done.
    by destruct (matches T t). }
  destruct c as [|name b|name b|name b|name b|name|T name|T name]; simpl.
  - by apply (private_same st).
  - apply bind_private; [apply HB|]. by intros _ st' H.
  - rewrite MustBind_unfold. specialize (HB name b).
    by destruct (Bind name (UserFn b) st) as [[?|] ?| | |].
  - apply bind_private; [apply HS|]. by intros _ st' H.
  - rewrite MustBindSingleton_unfold. specialize (HS name b).
    by destruct (BindSingleton name b st) as [[?|] ?| | |].
  - apply bind_private; [apply HR|]. by intros _ st' H.
  - apply bind_private; [apply HT|]. by intros _ st' H.
  - apply bind_private; [|by intros _ st' H].
    rewrite MustResolve_unfold. specialize (HT T name).
    by destruct (Resolve T name (Resolver fuel) st) as [[? [?|]] ?| | |].
Qed.

(** X10. In every state that calls of the package's interface lead to from
    a new container (factories included, whatever they bind or resolve on
    their way, and whether the last call returned or panicked), each stored
    singleton closure refers to variables that [BindSingleton] allocated, and
    no two names share a [sync.Once] or a cached [result]. *)
Theorem singleton_variables_stay_private (fuel : nat) (cs : list Call) :
  post closures_private (perform_all fuel cs NewContainer).
Proof.
  assert (H0 : closures_private NewContainer) by (split; intros; done).
  revert H0. generalize NewContainer.
  induction cs as [|c cs IH]; intros st Hp; simpl; [done|].
  apply bind_private; [by apply perform_private|]. intros _ st'. apply IH.
Qed.

(** ** Resolution does not look at the lock *)

Lemma table_free_same st st' :
  services st' = services st -> table_free st -> table_free st'.
Proof. intros Hs H N b Hb. rewrite Hs in Hb. by apply (H N b). Qed.

Lemma exec_lock_blind R R' c :
  lock_blind R R' ->
  container_free c ->
  forall st, table_free st ->
    exec R' c (set_locked true st) = with_lock (exec R c st) /\
    post (fun st' => services st' = services st) (exec R c st).
Proof.
  intros HR.
  induction c as [v|p|x k IH|x v k IH|name k IH|single name b _ k IH|k IH
                 |body IHb k IH]; simpl; intros Hc st Ht; try done.
  - by apply IH.
  - destruct (IH Hc (set_vars (<[x := v]> (vars st)) st)) as [E P];
      [by apply (table_free_same st)|]. split; [exact E|].
    eapply post_mono; [|exact P]. done.
  - unfold mbind, M_bind. destruct (HR name st Ht) as [E P]. rewrite E.
    destruct (R name st) as [[v err] st1|p st1| |]; simpl in *; try done.
    destruct (IH v err (Hc v err) st1) as [E1 P1];
      [by apply (table_free_same st)|]. split; [exact E1|].
    eapply post_mono; [|exact P1]. intros st2 H. by rewrite H.
  - destruct Hc as [Hb Hk]. destruct (IHb Hb st Ht) as [E P]. rewrite E.
    destruct (exec R body st) as [v st1|p st1| |]; simpl in *; try done.
    + destruct (IH (inl v) (Hk _) st1) as [E1 P1];
        [by apply (table_free_same st)|]. split; [exact E1|].
      eapply post_mono; [|exact P1]. intros st2 H. by rewrite H.
    + destruct (IH (inr p) (Hk _) st1) as [E1 P1];
        [by apply (table_free_same st)|]. split; [exact E1|].
      eapply post_mono; [|exact P1]. intros st2 H. by rewrite H.
Qed.

Lemma invoke_lock_blind R R' b :
  lock_blind R R' ->
  container_free (body_of b) ->
  forall st, table_free st ->
    invoke b R' (set_locked true st) = with_lock (invoke b R st) /\
    post (fun st' => services st' = services st) (invoke b R st).
Proof.
  intros HR Hc st Ht. destruct b as [body|o binder]; simpl in *;
    [by apply exec_lock_blind|].
  unfold mbind, M_bind, onceDo, get_result, set_result.
  change (env_at o (set_locked true st)) with (env_at o st).
  destruct (lazyBind (env_at o st)); simpl; try done.
  change (set_lazyBind o OnceRunning (set_locked true st))
    with (set_locked true (set_lazyBind o OnceRunning st)).
  destruct (exec_lock_blind R R' binder HR Hc (set_lazyBind o OnceRunning st))
    as [E P]; [by apply (table_free_same st)|]. rewrite E.
  destruct (exec R binder _) as [v st1|p st1| |]; simpl in *; done.
Qed.

Lemma Resolver_lock_blind n : lock_blind (Resolver n) (Resolver n).
Proof.
  induction n as [|n IH]; intros name st Ht; simpl;
    destruct (services st !! name) as [b|] eqn:Hs; simpl; try done.
  unfold mbind, M_bind.
  destruct (invoke_lock_blind _ _ b IH (Ht name b Hs) st Ht) as [E P].
  rewrite E. destruct (invoke b (Resolver n) st); simpl in *; done.
Qed.

(** X11. Resolution never looks at the lock.  When no factory of the table
    calls a method of the container, [Lock()] changes no resolution: a
    resolver, [Resolve[T]] and [MustResolve[T]] end after [Lock()] as they
    would have ended without it (with the same value, error or panic, the
    state differing in [locked] only), and a resolution leaves the table as
    it was. *)
Theorem Lock_changes_no_resolution (T : GoType) (n : nat) (N : string)
    (st stL : State) :
  table_free st ->
  Lock st = Ok tt stL ->
  Resolver n N stL = with_lock (Resolver n N st) /\
  Resolve T N (Resolver n) stL = with_lock (Resolve T N (Resolver n) st) /\
  MustResolve T N (Resolver n) stL
    = with_lock (MustResolve T N (Resolver n) st) /\
  post (fun st' => services st' = services st) (Resolver n N st).
Proof.
  intros Ht HL. inversion HL; subst stL.
  destruct (Resolver_lock_blind n N st Ht) as [E P].
  assert (ET : Resolve T N (Resolver n) (set_locked true st)
               = with_lock (Resolve T N (Resolver n) st)).
  { rewrite !Resolve_unfold, E.
    destruct (Resolver n N st) as [[t [e|]] st1| | |]; simpl; try done.
    by destruct (matches T t). }
  split_and!; try done.
  rewrite !MustResolve_unfold, ET.
  by destruct (Resolve T N (Resolver n) st) as [[x [e|]] st1| | |].
Qed.

Lemma Lock_changes_no_resolution_witness :
  table_free st_two /\
  Lock st_two = Ok tt (set_locked true st_two) /\
  Resolver 1 "once" (set_locked true st_two)
    = with_lock (Resolver 1 "once" st_two) /\
  Resolve TInt "once" (Resolver 1) (set_locked true st_two)
    = with_lock (Resolve TInt "once" (Resolver 1) st_two) /\
  MustResolve TInt "once" (Resolver 1) (set_locked true st_two)
    = with_lock (MustResolve TInt "once" (Resolver 1) st_two) /\
  post (fun st' => services st' = services st_two) (Resolver 1 "once" st_two).
Proof.
  assert (H1 : table_free st_two).
  { intros N b.
    change (services st_two)
      with (<["once" := OnceFn 0 (counter 1)]>
              (<["counter" := UserFn (counter 0)]>
                 (∅ : gmap string BinderFunc))).
    intros H. apply lookup_insert_Some in H as [[_ <-]|[_ H]]; [done|].
    apply lookup_insert_Some in H as [[_ <-]|[_ H]]; [done|].
    by rewrite lookup_empty in H. }
  assert (H2 : Lock st_two = Ok tt (set_locked true st_two)) by reflexivity.
  split; [exact H1|]. split; [exact H2|].
  apply (Lock_changes_no_resolution TInt 1 "once" st_two
           (set_locked true st_two) H1 H2).
Defined.

(** ** A typed retrieval that fails on a singleton *)

(** X12. A [Resolve[T']] that fails with the conversion error on a singleton
    has still run the factory and cached its value: when the first run of
    the factory returns a non-nil [x] of type [T] that is not a [T'],
    [Resolve[T']] returns the conversion error, and a [Resolve[T]] after it
    returns [x] from the cache, leaving the state as it is. *)
Theorem failed_Resolve_still_caches (T T' : GoType) (x : denote T)
    (N : string) (o : nat) (c : Code) (e0 : SingletonEnv) (n m : nat)
    (sa st' : State) :
  services sa !! N = Some (OnceFn o c) ->
  envs sa !! o = Some e0 ->
  lazyBind e0 = OnceFresh ->
  exec (Resolver n) c (set_lazyBind o OnceRunning sa) = Ok (box T x) st' ->
  box T x <> Nil ->
  matches T' (box T x) = false ->
  let st1 := set_lazyBind o OnceDone (store_result o (box T x) st') in
  Resolve T' N (Resolver (S n)) sa
    = Ok (zero T', Some (errTypeMismatch N)) st1 /\
  Resolve T N (Resolver (S m)) st1 = Ok (x, None) st1.
Proof.
  intros Hs He Hf Hx Hnn Hm st1.
  destruct (invoke_once_fresh _ _ _ _ _ _ _ He Hf (Resolver_preserves n) Hx)
    as [Hi Hd]. fold st1 in Hi, Hd.
  assert (HR : Resolver (S n) N sa = Ok (box T x, None) st1).
  { rewrite (Resolver_bound _ _ _ _ Hs). unfold mbind, M_bind. by rewrite Hi. }
  pose proof (Resolver_preserves (S n) N sa) as P. rewrite HR in P. simpl in P.
  split.
  - rewrite Resolve_unfold, HR, Hm. by rewrite (typeAssert_zero _ _ Hm).
  - rewrite Resolve_unfold.
    rewrite (Resolver_once_done m N o c st1 (box T x));
      [|by eapply extends_lookup|done].
    rewrite <- typeAssert_ok. by rewrite (typeAssert_of_box T x Hnn).
Qed.

Lemma failed_Resolve_still_caches_witness :
  services st_once !! "counter" = Some (OnceFn 0 (counter 0)) /\
  envs st_once !! 0 = Some (mkEnv OnceFresh Nil) /\
  lazyBind (mkEnv OnceFresh Nil) = OnceFresh /\
  exec (Resolver 0) (counter 0) (set_lazyBind 0 OnceRunning st_once)
    = Ok (box TInt 1%Z) st_counted /\
  box TInt 1%Z <> Nil /\
  matches TString (box TInt 1%Z) = false /\
  let st1 := set_lazyBind 0 OnceDone (store_result 0 (box TInt 1%Z) st_counted) in
  Resolve TString "counter" (Resolver 1) st_once
    = Ok (zero TString, Some (errTypeMismatch "counter")) st1 /\
  Resolve TInt "counter" (Resolver 1) st1 = Ok (1%Z, None) st1.
Proof.
  assert (H1 : services st_once !! "counter" = Some (OnceFn 0 (counter 0)))
    by reflexivity.
  assert (H2 : envs st_once !! 0 = Some (mkEnv OnceFresh Nil)) by reflexivity.
  assert (H3 : lazyBind (mkEnv OnceFresh Nil) = OnceFresh) by reflexivity.
  assert (H4 : exec (Resolver 0) (counter 0) (set_lazyBind 0 OnceRunning st_once)
               = Ok (box TInt 1%Z) st_counted) by reflexivity.
  assert (H5 : box TInt 1%Z <> Nil) by discriminate.
  assert (H6 : matches TString (box TInt 1%Z) = false) by reflexivity.
  split_and!; try assumption.
  apply (failed_Resolve_still_caches TInt TString 1%Z "counter" 0 (counter 0)
           (mkEnv OnceFresh Nil) 0 0 st_once st_counted H1 H2 H3 H4 H5 H6).
Defined.
